(** * The reader's service worker (sw.js): caching strategies, lifecycle, eviction

    A shallow embedding of [sw.js].  Promises are run to completion one after
    the other: an [async] function is a state transformer over the worker's
    [World] that ends either resolved with a value or rejected; [try]/[catch]
    is [try_catch]; a promise that the source starts and never awaits is
    [forget].  The platform (network, cache storage) is described by an
    environment [Env] of oracles that say which operations fail. *)

From Stdlib Require Import String Ascii List Bool Arith Lia Sorted.
From Stdlib Require Import DecimalString.
Import ListNotations.
Open Scope string_scope.
Open Scope list_scope.
Open Scope nat_scope.

Set Implicit Arguments.

(** ** Strings as JavaScript uses them *)

Module JS.

(** [s.startsWith(pre)] *)
Fixpoint startsWith (s pre : string) {struct pre} : bool :=
  match pre, s with
  | EmptyString, _ => true
  | String _ _, EmptyString => false
  | String a pre', String b s' => Ascii.eqb a b && startsWith s' pre'
  end.

(** [s.includes(sub)]: [sub] occurs at some position of [s]. *)
Fixpoint includes (s sub : string) : bool :=
  startsWith s sub ||
  match s with
  | EmptyString => false
  | String _ s' => includes s' sub
  end.

(** [s.endsWith(suf)]: some tail of [s] is [suf]. *)
Fixpoint endsWith (s suf : string) : bool :=
  String.eqb s suf ||
  match s with
  | EmptyString => false
  | String _ s' => endsWith s' suf
  end.

(** [xs.some(p)] *)
Definition some {A} (p : A -> bool) (xs : list A) : bool := existsb p xs.

(** [xs.slice(0, n)] *)
Definition slice0 {A} (n : nat) (xs : list A) : list A := firstn n xs.

(** [xs.sort(cmp)]: the sort is stable; the comparator answers a negative
    number, zero or a positive number, of which only the sign is read, so
    it is modelled as a [comparison] ([Eq] for [0]).  Insertion from the
    right end keeps equal elements in their order. *)
Fixpoint insert_sorted {A} (cmp : A -> A -> comparison) (x : A) (xs : list A) : list A :=
  match xs with
  | [] => [x]
  | y :: ys =>
      match cmp x y with
      | Gt => y :: insert_sorted cmp x ys
      | _ => x :: xs
      end
  end.

Fixpoint sort {A} (cmp : A -> A -> comparison) (xs : list A) : list A :=
  match xs with
  | [] => []
  | x :: xs' => insert_sorted cmp x (sort cmp xs')
  end.

End JS.

(** The double quote character, for the string literals that hold one. *)
Definition dq : string := String (ascii_of_nat 34) EmptyString.

(** ** Responses *)

Record Response : Type := mkResponse {
  status : nat;
  headers : list (string * string);
  body : string
}.

(** [response.ok]: the status is in the range 200-299. *)
Definition ok (r : Response) : bool :=
  (200 <=? status r) && (status r <=? 299).

(** [new Response(body, { status, headers })]; the status defaults to 200.
    The headers are those given in the initialiser. *)
Definition newResponse (b : string) (st : option nat) (hs : list (string * string)) : Response :=
  {| status := match st with Some s => s | None => 200 end;
     headers := hs;
     body := b |}.

(** [response.headers.get(name)] on the headers as written. *)
Fixpoint header_get (name : string) (hs : list (string * string)) : option string :=
  match hs with
  | [] => None
  | (n, v) :: hs' => if String.eqb n name then Some v else header_get name hs'
  end.

(** ** Requests *)

(** A request as the fetch handler reads it: [request.method], [request.url]
    and the two parts of [new URL(request.url)] that are inspected. *)
Record Request : Type := mkRequest {
  method : string;
  url : string;
  protocol : string;
  hostname : string
}.

(** ** The cache storage

    A cache is the list of its entries in the order [cache.keys()] lists
    them: [put] drops the entry stored under the same key and appends the new
    one, so the list runs from the oldest insertion to the newest.
    [inserted_at] is the instant of the [put]; no operation of the worker reads
    it, it is there to state properties about recency. *)

Record Entry : Type := mkEntry {
  entry_key : string;
  entry_response : Response;
  inserted_at : nat
}.

Definition Cache : Type := list Entry.

(** The caches of the origin by name, in creation order. *)
Definition CacheStorage : Type := list (string * Cache).

Definition has_key (k : string) (e : Entry) : bool := String.eqb (entry_key e) k.

Definition cache_match (c : Cache) (k : string) : option Response :=
  match find (has_key k) c with
  | Some e => Some (entry_response e)
  | None => None
  end.

Definition cache_delete (c : Cache) (k : string) : Cache :=
  filter (fun e => negb (has_key k e)) c.

Definition cache_put (c : Cache) (k : string) (r : Response) (t : nat) : Cache :=
  cache_delete c k ++ [mkEntry k r t].

Definition cache_keys (c : Cache) : list string := map entry_key c.

Fixpoint storage_find (cs : CacheStorage) (name : string) : option Cache :=
  match cs with
  | [] => None
  | (n, c) :: cs' => if String.eqb n name then Some c else storage_find cs' name
  end.

(** [caches.open(name)] creates the cache when there is none of that name. *)
Definition storage_open (cs : CacheStorage) (name : string) : CacheStorage :=
  match storage_find cs name with
  | Some _ => cs
  | None => cs ++ [(name, [])]
  end.

Definition storage_update (cs : CacheStorage) (name : string) (f : Cache -> Cache) : CacheStorage :=
  map (fun nc => if String.eqb (fst nc) name then (fst nc, f (snd nc)) else nc) cs.

Definition storage_delete (cs : CacheStorage) (name : string) : CacheStorage :=
  filter (fun nc => negb (String.eqb (fst nc) name)) cs.

Definition storage_keys (cs : CacheStorage) : list string := map fst cs.

(** [caches.match(request)]: the first cache, in creation order, that holds
    the key answers. *)
Fixpoint storage_match (cs : CacheStorage) (k : string) : option Response :=
  match cs with
  | [] => None
  | (_, c) :: cs' =>
      match cache_match c k with
      | Some r => Some r
      | None => storage_match cs' k
      end
  end.

(** ** The worker's world and the platform *)

Inductive Level : Type := Log | Error.

Record World : Type := mkWorld {
  caches : CacheStorage;                  (* the origin's cache storage *)
  console : list (Level * list string);   (* console.log / console.error, oldest first *)
  fetched : list string;                  (* the URLs handed to fetch(), oldest first *)
  now : nat;                              (* the instant of the event being handled *)
  skipped_waiting : bool;                 (* self.skipWaiting() was called *)
  claimed : bool                          (* self.clients.claim() was called *)
}.

Definition set_caches (w : World) (cs : CacheStorage) : World :=
  mkWorld cs (console w) (fetched w) (now w) (skipped_waiting w) (claimed w).

Definition add_console (w : World) (l : Level) (args : list string) : World :=
  mkWorld (caches w) (console w ++ [(l, args)]) (fetched w) (now w) (skipped_waiting w) (claimed w).

Definition add_fetched (w : World) (us : list string) : World :=
  mkWorld (caches w) (console w) (fetched w ++ us) (now w) (skipped_waiting w) (claimed w).

Definition set_skipped_waiting (w : World) : World :=
  mkWorld (caches w) (console w) (fetched w) (now w) true (claimed w).

Definition set_claimed (w : World) : World :=
  mkWorld (caches w) (console w) (fetched w) (now w) (skipped_waiting w) true.

(** What the platform does when the worker calls it.  [net u] is the outcome
    of [fetch] for the URL [u]: [None] when the promise rejects (no network),
    [Some r] when a response arrives, whatever its status.  The [_ok] oracles
    say whether a storage operation succeeds ([false]: its promise rejects). *)
Record Env : Type := mkEnv {
  net : string -> option Response;
  resolve_url : string -> string;        (* a manifest URL against the worker's location *)
  caches_match_ok : bool;                (* caches.match(request) *)
  caches_open_ok : string -> bool;       (* caches.open(name) *)
  caches_keys_ok : bool;                 (* caches.keys() *)
  caches_delete_ok : string -> bool;     (* caches.delete(name) *)
  cache_put_ok : string -> string -> bool;    (* cache.put / cache.addAll, by cache and key *)
  cache_keys_ok : string -> bool;             (* cache.keys() *)
  cache_delete_ok : string -> string -> bool  (* cache.delete(request), by cache and key *)
}.

(** ** Promises, run to completion *)

Inductive Settled (A : Type) : Type :=
| Resolved (a : A)
| Rejected (reason : string).
Arguments Resolved {A} a.
Arguments Rejected {A} reason.

Definition Async (A : Type) : Type := World -> Settled A * World.

Definition ret {A} (a : A) : Async A := fun w => (Resolved a, w).

Definition bind {A B} (m : Async A) (k : A -> Async B) : Async B :=
  fun w =>
    match m w with
    | (Resolved a, w') => k a w'
    | (Rejected e, w') => (Rejected e, w')
    end.

(** [try { m } catch (error) { h error }] *)
Definition try_catch {A} (m : Async A) (h : string -> Async A) : Async A :=
  fun w =>
    match m w with
    | (Resolved a, w') => (Resolved a, w')
    | (Rejected e, w') => h e w'
    end.

(** A promise that is started and not awaited: its effects happen, its
    outcome reaches nobody. *)
Definition forget {A} (m : Async A) : Async unit :=
  fun w => (Resolved tt, snd (m w)).

(** [Promise.all(ps)]: every operation of [ps] is already under way and runs
    whatever becomes of the others; the result rejects when one of them does. *)
Fixpoint promise_all {A} (ps : list (Async A)) : Async (list A) :=
  fun w =>
    match ps with
    | [] => (Resolved [], w)
    | p :: ps' =>
        let (r, w1) := p w in
        let (rs, w2) := promise_all ps' w1 in
        (match r, rs with
         | Resolved a, Resolved l => Resolved (a :: l)
         | Rejected e, _ => Rejected e
         | Resolved _, Rejected e => Rejected e
         end, w2)
    end.

Declare Scope async_scope.
Delimit Scope async_scope with async.
Notation "x <- m ;; k" := (bind m (fun x => k))
  (at level 61, m at next level, right associativity) : async_scope.
Notation "m ;; k" := (bind m (fun _ => k))
  (at level 61, right associativity) : async_scope.
Open Scope async_scope.

Definition run {A} (m : Async A) (w : World) : Settled A := fst (m w).
Definition after {A} (m : Async A) (w : World) : World := snd (m w).

(** ** Constants of the worker *)

Definition CACHE_NAME : string := "reader-v1.0.0".
Definition STATIC_CACHE : string := "reader-static-v1.0.0".
Definition DYNAMIC_CACHE : string := "reader-dynamic-v1.0.0".

Definition STATIC_ASSETS : list string :=
  [ "./";
    "./index.html";
    "./manifest.json";
    "https://cdn.jsdelivr.net/npm/jszip@3.10.1/dist/jszip.min.js";
    "https://cdn.jsdelivr.net/npm/epubjs@0.3/dist/epub.min.js";
    "https://cdn.jsdelivr.net/npm/marked@12.0.2/marked.min.js" ].

(** The template literal of [handleDynamicRequest] as its UTF-8 bytes, line
    breaks and indentation included; the pieces are the text between the
    double quotes of the markup. *)
Definition offlinePageHtml : string :=
  String.concat dq
    [ "
    <!DOCTYPE html>
    <html lang=";
      "zh-CN";
      ">
    <head>
      <meta charset=";
      "utf-8";
      ">
      <meta name=";
      "viewport";
      " content=";
      "width=device-width, initial-scale=1";
      ">
      <title>离线 - 极简电子书阅读器</title>
      <style>
        body {
          font-family: -apple-system, BlinkMacSystemFont, 'Segoe UI', Roboto, sans-serif;
          display: flex;
          flex-direction: column;
          align-items: center;
          justify-content: center;
          min-height: 100vh;
          margin: 0;
          background: #f5f5f5;
          color: #333;
        }
        .container {
          text-align: center;
          padding: 2rem;
          background: white;
          border-radius: 12px;
          box-shadow: 0 4px 12px rgba(0,0,0,0.1);
          max-width: 400px;
        }
        h1 { color: #1f6eeb; margin-bottom: 1rem; }
        p { margin-bottom: 1rem; color: #666; }
        button {
          background: #1f6eeb;
          color: white;
          border: none;
          padding: 12px 24px;
          border-radius: 8px;
          font-size: 16px;
          cursor: pointer;
          transition: background 0.2s;
        }
        button:hover { background: #0056cc; }
      </style>
    </head>
    <body>
      <div class=";
      "container";
      ">
        <h1>📚 离线模式</h1>
        <p>当前处于离线状态，无法加载新内容。</p>
        <p>您可以继续阅读已缓存的书籍。</p>
        <button onclick=";
      "location.reload()";
      ">重新连接</button>
      </div>
    </body>
    </html>
  " ].

(** ** The worker *)

Section Worker.

Variable E : Env.

(** *** Platform calls *)

Definition console_log (args : list string) : Async unit :=
  fun w => (Resolved tt, add_console w Log args).

Definition console_error (args : list string) : Async unit :=
  fun w => (Resolved tt, add_console w Error args).

(** [fetch(request)] *)
Definition fetch (request : Request) : Async Response :=
  fun w =>
    (match net E (url request) with
     | Some r => Resolved r
     | None => Rejected "TypeError: Failed to fetch"
     end, add_fetched w [url request]).

(** [caches.match(request)] *)
Definition caches_match (request : Request) : Async (option Response) :=
  fun w =>
    if caches_match_ok E
    then (Resolved (storage_match (caches w) (url request)), w)
    else (Rejected "caches.match failed", w).

(** [caches.open(name)]; the handle of a cache is its name. *)
Definition caches_open (name : string) : Async string :=
  fun w =>
    if caches_open_ok E name
    then (Resolved name, set_caches w (storage_open (caches w) name))
    else (Rejected "caches.open failed", w).

(** [caches.keys()] *)
Definition caches_keys : Async (list string) :=
  fun w =>
    if caches_keys_ok E
    then (Resolved (storage_keys (caches w)), w)
    else (Rejected "caches.keys failed", w).

(** [caches.delete(name)]: resolves with whether there was such a cache. *)
Definition caches_delete (name : string) : Async bool :=
  fun w =>
    if caches_delete_ok E name
    then (Resolved (match storage_find (caches w) name with Some _ => true | None => false end),
          set_caches w (storage_delete (caches w) name))
    else (Rejected "caches.delete failed", w).

(** [response.clone()] *)
Definition clone (r : Response) : Response := r.

(** [cache.put(request, response)] *)
Definition cache_put_op (cache : string) (request : Request) (response : Response) : Async unit :=
  fun w =>
    if cache_put_ok E cache (url request)
    then (Resolved tt,
          set_caches w (storage_update (caches w) cache
                          (fun c => cache_put c (url request) response (now w))))
    else (Rejected "cache.put failed", w).

(** [cache.keys()] *)
Definition cache_keys_op (cache : string) : Async (list string) :=
  fun w =>
    if cache_keys_ok E cache
    then (Resolved (match storage_find (caches w) cache with
                    | Some c => cache_keys c
                    | None => []
                    end), w)
    else (Rejected "cache.keys failed", w).

(** [cache.delete(request)]: resolves with whether the key was stored. *)
Definition cache_delete_op (cache : string) (key : string) : Async bool :=
  fun w =>
    if cache_delete_ok E cache key
    then (Resolved (match storage_find (caches w) cache with
                    | Some c => existsb (has_key key) c
                    | None => false
                    end),
          set_caches w (storage_update (caches w) cache (fun c => cache_delete c key)))
    else (Rejected "cache.delete failed", w).

(** [cache.addAll(urls)]: every URL is fetched; unless every response
    arrives with an ok status and every entry can be written, the promise
    rejects and nothing is stored. *)
Definition fetched_ok (o : option Response) : bool :=
  match o with
  | Some r => ok r
  | None => false
  end.

Definition put_fetched (t : nat) (c : Cache) (ko : string * option Response) : Cache :=
  match snd ko with
  | Some r => cache_put c (fst ko) r t
  | None => c
  end.

Definition cache_addAll (cache : string) (urls : list string) : Async unit :=
  fun w =>
    let keys := map (resolve_url E) urls in
    let answers := map (net E) keys in
    let w1 := add_fetched w keys in
    if forallb fetched_ok answers && forallb (cache_put_ok E cache) keys
    then (Resolved tt,
          set_caches w1 (storage_update (caches w1) cache
                           (fun c => fold_left (put_fetched (now w)) (combine keys answers) c)))
    else (Rejected "TypeError: cache.addAll failed", w1).

Definition skipWaiting : Async unit :=
  fun w => (Resolved tt, set_skipped_waiting w).

Definition clients_claim : Async unit :=
  fun w => (Resolved tt, set_claimed w).

(** *** Classification *)

Definition isStaticAsset (u : string) : bool :=
  JS.some (fun asset => JS.includes u asset) STATIC_ASSETS ||
  JS.includes u "cdn.jsdelivr.net" ||
  JS.endsWith u ".js" ||
  JS.endsWith u ".css" ||
  JS.endsWith u ".json".

Definition isEpubFile (u : string) : bool :=
  JS.endsWith u ".epub" || JS.includes u ".epub".

(** *** The three strategies *)

Definition handleStaticAsset (request : Request) : Async Response :=
  try_catch
    (cachedResponse <- caches_match request ;;
     match cachedResponse with
     | Some r => ret r
     | None =>
         networkResponse <- fetch request ;;
         (if ok networkResponse
          then cache <- caches_open STATIC_CACHE ;;
               forget (cache_put_op cache request (clone networkResponse))
          else ret tt) ;;
         ret networkResponse
     end)
    (fun error =>
       console_error ["处理静态资源失败:"; error] ;;
       ret (newResponse "离线模式 - 无法加载资源" (Some 503) [])).

(** The [try] block of the two network-first handlers either returns from
    the function ([Some]) or falls out of the block ([None]). *)
Definition handleEpubFile (request : Request) : Async Response :=
  returned <-
    try_catch
      (networkResponse <- fetch request ;;
       if ok networkResponse
       then cache <- caches_open DYNAMIC_CACHE ;;
            forget (cache_put_op cache request (clone networkResponse)) ;;
            ret (Some networkResponse)
       else ret None)
      (fun error =>
         console_log ["网络获取EPUB失败，尝试从缓存获取"] ;;
         ret None) ;;
  match returned with
  | Some networkResponse => ret networkResponse
  | None =>
      cachedResponse <- caches_match request ;;
      match cachedResponse with
      | Some r => ret r
      | None => ret (newResponse "EPUB文件不可用" (Some 404) [])
      end
  end.

Definition offlinePage : Response :=
  newResponse offlinePageHtml None [("Content-Type", "text/html; charset=utf-8")].

Definition handleDynamicRequest (request : Request) : Async Response :=
  returned <-
    try_catch
      (networkResponse <- fetch request ;;
       if ok networkResponse
       then cache <- caches_open DYNAMIC_CACHE ;;
            forget (cache_put_op cache request (clone networkResponse)) ;;
            ret (Some networkResponse)
       else ret None)
      (fun error =>
         console_log ["网络请求失败，尝试从缓存获取"] ;;
         ret None) ;;
  match returned with
  | Some networkResponse => ret networkResponse
  | None =>
      cachedResponse <- caches_match request ;;
      match cachedResponse with
      | Some r => ret r
      | None => ret offlinePage
      end
  end.

(** *** The fetch event *)

Inductive Strategy : Type := StaticAsset | EpubFile | DynamicRequest.

(** What the listener does with the event: it returns without answering
    (the browser handles the request) or calls [event.respondWith]. *)
Inductive Interception : Type :=
| PassThrough
| RespondWith (s : Strategy).

Definition onFetch (request : Request) : Interception :=
  if negb (String.eqb (method request) "GET") then PassThrough
  else if String.eqb (protocol request) "chrome-extension:" ||
          String.eqb (hostname request) "chrome-devtools-frontend.appspot.com"
  then PassThrough
  else if isStaticAsset (url request) then RespondWith StaticAsset
  else if isEpubFile (url request) then RespondWith EpubFile
  else RespondWith DynamicRequest.

Definition handler (s : Strategy) : Request -> Async Response :=
  match s with
  | StaticAsset => handleStaticAsset
  | EpubFile => handleEpubFile
  | DynamicRequest => handleDynamicRequest
  end.

(** *** Install, activate, message *)

(** The promise the install listener hands to [event.waitUntil]. *)
Definition onInstall : Async unit :=
  console_log ["Service Worker 安装中..."] ;;
  try_catch
    (cache <- caches_open STATIC_CACHE ;;
     console_log ["缓存静态资源"] ;;
     cache_addAll cache STATIC_ASSETS ;;
     console_log ["静态资源缓存完成"] ;;
     skipWaiting)
    (fun error => console_error ["缓存静态资源失败:"; error]).

(** The promise the activate listener hands to [event.waitUntil]. *)
Definition onActivate : Async unit :=
  console_log ["Service Worker 激活中..."] ;;
  cacheNames <- caches_keys ;;
  promise_all
    (map (fun cacheName =>
            if negb (String.eqb cacheName STATIC_CACHE) &&
               negb (String.eqb cacheName DYNAMIC_CACHE)
            then console_log ["删除旧缓存:"; cacheName] ;;
                 deleted <- caches_delete cacheName ;;
                 ret (Some deleted)
            else ret None)
         cacheNames) ;;
  console_log ["Service Worker 激活完成"] ;;
  clients_claim.

(** The message listener; [data_type] is [event.data.type] when
    [event.data] is there and has one. *)
Definition onMessage (data_type : option string) : Async unit :=
  match data_type with
  | Some t =>
      if String.eqb t "SKIP_WAITING"
      then console_log ["收到跳过等待消息"] ;; skipWaiting
      else ret tt
  | None => ret tt
  end.

(** *** The eviction sweep *)

Definition decimal (n : nat) : string := NilEmpty.string_of_uint (Nat.to_uint n).

Definition cleanupExpiredCache : Async unit :=
  try_catch
    (cache <- caches_open DYNAMIC_CACHE ;;
     requests <- cache_keys_op cache ;;
     if 100 <? length requests
     then
       let sortedRequests := JS.sort (fun a b => Eq) requests in
       let toDelete := JS.slice0 (length requests - 100) sortedRequests in
       promise_all (map (fun request => cache_delete_op cache request) toDelete) ;;
       console_log ["清理了"; decimal (length toDelete); "个过期缓存"]
     else ret tt)
    (fun error => console_error ["清理缓存失败:"; error]).

End Worker.

(** ** Vocabulary of the statements *)

(** The synthetic answers of the strategies. *)
Definition staticUnavailable : Response :=
  newResponse "离线模式 - 无法加载资源" (Some 503) [].

Definition epubUnavailable : Response :=
  newResponse "EPUB文件不可用" (Some 404) [].

(** The heading of the offline page. *)
Definition offline_marker : string := "离线模式".

(** Markup that refers to nothing outside itself: no absolute URL, no
    attribute or style rule that loads a resource. *)
Definition self_contained (html : string) : bool :=
  negb (JS.includes html "http:") &&
  negb (JS.includes html "https:") &&
  negb (JS.includes html "//") &&
  negb (JS.includes html "src=") &&
  negb (JS.includes html "href=") &&
  negb (JS.includes html "url(") &&
  negb (JS.includes html "@import").

(** The network-first handlers keep the network's answer when it arrives
    with an ok status and the dynamic cache can be opened for the copy;
    otherwise they leave the [try] block and turn to the cache. *)
Definition network_answer_kept (E : Env) (request : Request) : bool :=
  fetched_ok (net E (url request)) && caches_open_ok E DYNAMIC_CACHE.

(** The last resort of a network-first handler: the network's answer is not
    kept and the cache lookup finds no entry for the key. *)
Definition last_resort (E : Env) (w : World) (request : Request) : bool :=
  negb (network_answer_kept E request) &&
  caches_match_ok E &&
  match storage_match (caches w) (url request) with
  | Some _ => false
  | None => true
  end.

(** The text the specification gives for the body of the 503 answer. *)
Definition spec_static_body : string := "offline mode — resource unavailable".

(** The entries of the cache [name], none when there is no such cache. *)
Definition cache_of (cs : CacheStorage) (name : string) : Cache :=
  match storage_find cs name with
  | Some c => c
  | None => []
  end.

(** ** Sample platforms and worlds *)

(** No network; the storage works. *)
Definition offline_env : Env :=
  mkEnv (fun _ => None) (fun u => u) true (fun _ => true) true (fun _ => true)
        (fun _ _ => true) (fun _ => true) (fun _ _ => true).

(** Every fetch is answered with [r]; the storage works. *)
Definition answering_env (r : Response) : Env :=
  mkEnv (fun _ => Some r) (fun u => u) true (fun _ => true) true (fun _ => true)
        (fun _ _ => true) (fun _ => true) (fun _ _ => true).

Definition empty_world : World := mkWorld [] [] [] 0 false false.

Definition world_of (cs : CacheStorage) : World := mkWorld cs [] [] 0 false false.

Definition GET (u : string) : Request := mkRequest "GET" u "https:" "reader.example".

Definition plain (st : nat) (b : string) : Response := mkResponse st [] b.

(** A cache name of the deployed version. *)
Definition is_current (name : string) : bool :=
  String.eqb name STATIC_CACHE || String.eqb name DYNAMIC_CACHE.

(** An entry of the manifest that cannot be cached: its fetch rejects or
    answers with a status that is not ok, or the write is refused. *)
Definition asset_fails (E : Env) (asset : string) : bool :=
  negb (fetched_ok (net E (resolve_url E asset))) ||
  negb (cache_put_ok E STATIC_CACHE (resolve_url E asset)).

(** What the callback of [cacheNames.map] does to the storage for one name. *)
Definition sweep_name (E : Env) (cs : CacheStorage) (name : string) : CacheStorage :=
  if negb (is_current name) && caches_delete_ok E name
  then storage_delete cs name
  else cs.

(** The storage works except that the cache [name] cannot be deleted. *)
Definition undeletable_env (name : string) : Env :=
  mkEnv (fun _ => None) (fun u => u) true (fun _ => true) true
        (fun n => negb (String.eqb n name))
        (fun _ _ => true) (fun _ => true) (fun _ _ => true).

(** Caches of the current version, of an older one, and a stray one. *)
Definition mixed_storage : CacheStorage :=
  [ (STATIC_CACHE, []); (DYNAMIC_CACHE, []); ("reader-static-v0.9.0", []); ("leftover", []) ].

(** ** Histories of a cache

    A cache comes to be by [put]s and [delete]s, the clock never running
    backwards between two [put]s. *)

Inductive CacheOp : Type :=
| Put (key : string) (response : Response) (at_time : nat)
| Delete (key : string).

Definition apply_op (c : Cache) (op : CacheOp) : Cache :=
  match op with
  | Put k r t => cache_put c k r t
  | Delete k => cache_delete c k
  end.

Definition replay (ops : list CacheOp) : Cache := fold_left apply_op ops [].

(** The [put]s of [ops] happen at instants that do not decrease, none
    before [t0]. *)
Fixpoint in_time_order (t0 : nat) (ops : list CacheOp) : bool :=
  match ops with
  | [] => true
  | Put _ _ t :: ops' => (t0 <=? t) && in_time_order t ops'
  | Delete _ :: ops' => in_time_order t0 ops'
  end.

(** Entries listed from the oldest insertion to the newest. *)
Definition chronological (c : Cache) : Prop :=
  StronglySorted (fun a b => inserted_at a <= inserted_at b) c.

(** What the histories maintain: one entry per key, oldest first, none
    inserted after [t]. *)
Definition cache_inv (t : nat) (c : Cache) : Prop :=
  NoDup (cache_keys c) /\ chronological c /\ Forall (fun e => inserted_at e <= t) c.

(** A history of [n] documents, the [i]-th stored at instant [i]. *)
Definition book_url (i : nat) : string :=
  ("https://reader.example/books/" ++ decimal i ++ ".epub")%string.

Definition shelf_history (n : nat) : list CacheOp :=
  map (fun i => Put (book_url i) (plain 200 "book") i) (seq 0 n).

(** A world whose dynamic cache holds the 150 documents of the shelf. *)
Definition full_shelf : World :=
  world_of [ (STATIC_CACHE, []); (DYNAMIC_CACHE, replay (shelf_history 150)) ].



(** ** Further vocabulary *)

(** The cache a strategy writes to. *)
Definition target (s : Strategy) : string :=
  match s with
  | StaticAsset => STATIC_CACHE
  | EpubFile => DYNAMIC_CACHE
  | DynamicRequest => DYNAMIC_CACHE
  end.

(** Every entry of the manifest can be fetched and stored. *)
Definition manifest_ok (E : Env) : bool :=
  forallb (fun asset => negb (asset_fails E asset)) STATIC_ASSETS.

(** Every cache of [cs] that activation deletes can be deleted. *)
Definition stale_deletable (E : Env) (cs : CacheStorage) : bool :=
  forallb (fun name => is_current name || caches_delete_ok E name) (storage_keys cs).

(** The storage works, the network answers every fetch with [r], but no
    entry can be written. *)
Definition read_only_env (r : Response) : Env :=
  mkEnv (fun _ => Some r) (fun u => u) true (fun _ => true) true (fun _ => true)
        (fun _ _ => false) (fun _ => true) (fun _ _ => true).

(** The network answers every fetch with [r]; no cache can be opened. *)
Definition sealed_env (r : Response) : Env :=
  mkEnv (fun _ => Some r) (fun u => u) true (fun _ => false) true (fun _ => true)
        (fun _ _ => true) (fun _ => true) (fun _ _ => true).

(** The storage works except that the entry [key] of a cache cannot be
    deleted. *)
Definition sticky_env (key : string) : Env :=
  mkEnv (fun _ => None) (fun u => u) true (fun _ => true) true (fun _ => true)
        (fun _ _ => true) (fun _ => true) (fun _ k => negb (String.eqb k key)).

(** A world whose dynamic cache holds the first [n] documents of the shelf. *)
Definition shelf_world (n : nat) : World :=
  world_of [ (STATIC_CACHE, []); (DYNAMIC_CACHE, replay (shelf_history n)) ].

Definition is_resolved {A} (r : Settled A) : bool :=
  match r with
  | Resolved _ => true
  | Rejected _ => false
  end.

(** [event.data.type] is [SKIP_WAITING]. *)
Definition is_skip_waiting (data_type : option string) : bool :=
  match data_type with
  | Some t => String.eqb t "SKIP_WAITING"
  | None => false
  end.

(** Every fetch is answered with an ok response that names the URL; the
    storage works. *)
Definition mirror_env : Env :=
  mkEnv (fun u => Some (plain 200 u)) (fun u => u) true (fun _ => true) true (fun _ => true)
        (fun _ _ => true) (fun _ => true) (fun _ _ => true).

(** The callback of [cacheNames.map] in the activate listener. *)
Definition activate_callback (E : Env) (cacheName : string) : Async (option bool) :=
  if negb (String.eqb cacheName STATIC_CACHE) && negb (String.eqb cacheName DYNAMIC_CACHE)
  then console_log ["删除旧缓存:"; cacheName] ;;
       deleted <- caches_delete E cacheName ;;
       ret (Some deleted)
  else ret None.

(** The keys the sweep asks to delete in a dynamic cache [c]: the first
    [length c - 100] of the listing. *)
Definition sweep_keys (c : Cache) : list string :=
  firstn (length c - 100) (cache_keys c).

(** The sweep gets as far as deleting: the dynamic cache opens, its keys can
    be listed and there are more than 100 of them. *)
Definition sweep_deletes (E : Env) (c : Cache) : bool :=
  caches_open_ok E DYNAMIC_CACHE && cache_keys_ok E DYNAMIC_CACHE && (100 <? length c).

(** ** Facts about the string operations *)

Lemma startsWith_spec (s pre : string) :
  JS.startsWith s pre = true <-> exists rest, s = (pre ++ rest)%string.
Proof.
  revert s; induction pre as [|a pre IH]; intros s; simpl.
  - split; [intros _; exists s; reflexivity | reflexivity].
  - destruct s as [|b s]; simpl.
    + split; [discriminate | intros [rest H]; discriminate].
    + rewrite andb_true_iff, Ascii.eqb_eq, IH. split.
      * intros [-> [rest ->]]. exists rest; reflexivity.
      * intros [rest H]. injection H as -> ->. split; [reflexivity | eauto].
Qed.

Lemma includes_spec (s sub : string) :
  JS.includes s sub = true <-> exists before rest, s = (before ++ sub ++ rest)%string.
Proof.
  induction s as [|b s IH]; simpl; rewrite orb_true_iff, startsWith_spec.
  - split.
    + intros [[rest H] | H]; [exists "", rest; exact H | discriminate].
    + intros [before [rest H]]. left. destruct before; [exists rest; exact H | discriminate].
  - rewrite IH. split.
    + intros [[rest H] | [before [rest H]]].
      * exists "", rest; exact H.
      * exists (String b before), rest. simpl. now rewrite H.
    + intros [before [rest H]]. destruct before as [|b' before]; simpl in H.
      * left; exists rest; exact H.
      * right. injection H as _ H. exists before, rest; exact H.
Qed.

Lemma endsWith_unfold (s suf : string) :
  JS.endsWith s suf =
  String.eqb s suf || match s with EmptyString => false | String _ s' => JS.endsWith s' suf end.
Proof. destruct s; reflexivity. Qed.

Lemma endsWith_spec (s suf : string) :
  JS.endsWith s suf = true <-> exists before, s = (before ++ suf)%string.
Proof.
  induction s as [|b s IH]; rewrite endsWith_unfold, orb_true_iff, String.eqb_eq.
  - split.
    + intros [H | H]; [exists ""; exact H | discriminate].
    + intros [before H]. left. destruct before; [exact H | discriminate].
  - rewrite IH. split.
    + intros [H | [before H]].
      * exists ""; exact H.
      * exists (String b before). simpl. now rewrite H.
    + intros [before H]. destruct before as [|b' before]; simpl in H.
      * left; exact H.
      * right. injection H as _ H. exists before; exact H.
Qed.

Lemma append_empty_r (s : string) : (s ++ "")%string = s.
Proof. induction s; simpl; congruence. Qed.

Lemma endsWith_includes (s suf : string) :
  JS.endsWith s suf = true -> JS.includes s suf = true.
Proof.
  rewrite endsWith_spec, includes_spec. intros [before H].
  exists before, "". now rewrite append_empty_r.
Qed.

(** A comparator that always answers [0] leaves the array as it is. *)
Lemma sort_constant_comparator {A} (xs : list A) :
  JS.sort (fun _ _ => Eq) xs = xs.
Proof.
  induction xs as [|x xs IH]; simpl; [reflexivity|].
  rewrite IH. destruct xs; reflexivity.
Qed.

(** *** The storage *)

Lemma storage_find_update (cs : CacheStorage) (name : string) (f : Cache -> Cache) :
  storage_find (storage_update cs name f) name
  = match storage_find cs name with Some c => Some (f c) | None => None end.
Proof.
  induction cs as [|[n c] cs IH]; simpl; [reflexivity|].
  destruct (String.eqb_spec n name) as [-> | Hne]; simpl.
  - rewrite String.eqb_refl. reflexivity.
  - apply String.eqb_neq in Hne. rewrite Hne. exact IH.
Qed.

Lemma storage_update_twice (cs : CacheStorage) (name : string) (f g : Cache -> Cache) :
  storage_update (storage_update cs name f) name g
  = storage_update cs name (fun c => g (f c)).
Proof.
  unfold storage_update. rewrite map_map. apply map_ext.
  intros [n c]. simpl. destruct (String.eqb_spec n name) as [-> | Hne]; simpl.
  - rewrite String.eqb_refl. reflexivity.
  - apply String.eqb_neq in Hne. rewrite Hne. reflexivity.
Qed.

Lemma storage_update_id (cs : CacheStorage) (name : string) :
  storage_update cs name (fun c => c) = cs.
Proof.
  unfold storage_update. rewrite <- (map_id cs) at 2. apply map_ext.
  intros [n c]. simpl. destruct (n =? name)%string; reflexivity.
Qed.

Lemma storage_delete_keys (cs : CacheStorage) (name : string) (ks : list string) :
  fold_left (fun cs' k => storage_update cs' name (fun c => cache_delete c k)) ks cs
  = storage_update cs name (fun c => fold_left cache_delete ks c).
Proof.
  revert cs. induction ks as [|k ks IH]; intros cs; simpl.
  - symmetry. apply storage_update_id.
  - rewrite IH, storage_update_twice. reflexivity.
Qed.

Lemma storage_open_found (cs : CacheStorage) (name : string) (c : Cache) :
  storage_find cs name = Some c -> storage_open cs name = cs.
Proof. intros H. unfold storage_open. now rewrite H. Qed.

Lemma storage_find_update_other (cs : CacheStorage) (name other : string) (f : Cache -> Cache) :
  other <> name ->
  storage_find (storage_update cs name f) other = storage_find cs other.
Proof.
  intros Hne. induction cs as [|[n c] cs IH]; simpl; [reflexivity|].
  destruct (String.eqb_spec n name) as [-> | Hn]; simpl.
  - apply not_eq_sym, String.eqb_neq in Hne. rewrite Hne. exact IH.
  - destruct (n =? other)%string; [reflexivity | exact IH].
Qed.

Lemma storage_find_app (cs cs' : CacheStorage) (name : string) :
  storage_find (cs ++ cs') name
  = match storage_find cs name with Some c => Some c | None => storage_find cs' name end.
Proof.
  induction cs as [|[n c] cs IH]; simpl; [reflexivity|].
  destruct (n =? name)%string; [reflexivity | exact IH].
Qed.

Lemma storage_find_open (cs : CacheStorage) (name : string) :
  storage_find (storage_open cs name) name = Some (cache_of cs name).
Proof.
  unfold storage_open, cache_of. destruct (storage_find cs name) eqn:H.
  - exact H.
  - rewrite storage_find_app, H. simpl. now rewrite String.eqb_refl.
Qed.

Lemma storage_find_open_other (cs : CacheStorage) (name other : string) :
  other <> name ->
  storage_find (storage_open cs name) other = storage_find cs other.
Proof.
  intros Hne. unfold storage_open. destruct (storage_find cs name); [reflexivity|].
  rewrite storage_find_app. simpl.
  apply not_eq_sym, String.eqb_neq in Hne. rewrite Hne.
  destruct (storage_find cs other); reflexivity.
Qed.

(** Opening a cache changes the answer of no lookup. *)
Lemma storage_match_open (cs : CacheStorage) (name key : string) :
  storage_match (storage_open cs name) key = storage_match cs key.
Proof.
  unfold storage_open. destruct (storage_find cs name); [reflexivity|].
  induction cs as [|[n c] cs IH]; simpl; [reflexivity|].
  destruct (cache_match c key); [reflexivity | exact IH].
Qed.

Lemma cache_match_put (c : Cache) (k : string) (r : Response) (t : nat) :
  cache_match (cache_put c k r t) k = Some r.
Proof.
  unfold cache_match, cache_put, cache_delete.
  induction c as [|e c IH]; simpl.
  - unfold has_key. simpl. now rewrite String.eqb_refl.
  - destruct (has_key k e) eqn:He; simpl; [exact IH|].
    rewrite He. exact IH.
Qed.

(** After a miss, the entry just put is what the lookup finds. *)
Lemma storage_match_put (cs : CacheStorage) (name k : string) (r : Response) (t : nat) (c : Cache) :
  storage_match cs k = None ->
  storage_find cs name = Some c ->
  storage_match (storage_update cs name (fun c0 => cache_put c0 k r t)) k = Some r.
Proof.
  induction cs as [|[n c0] cs IH]; simpl; intros Hmiss Hfind; [discriminate|].
  destruct (cache_match c0 k) eqn:Hc0; [discriminate|].
  destruct (String.eqb_spec n name) as [-> | Hn]; simpl.
  - now rewrite cache_match_put.
  - rewrite Hc0. apply IH; assumption.
Qed.

(** ** The strategies *)

Ltac unfold_async :=
  unfold run, after, bind, try_catch, forget, ret,
    fetch, caches_match, caches_open, cache_put_op,
    console_log, console_error in *.

(** Case analysis on what the platform answers, in the order the handler
    asks. *)
Ltac cases_async :=
  unfold_async; simpl;
  repeat match goal with
         | |- context [match net ?E ?u with _ => _ end] =>
             destruct (net E u) eqn:?; simpl
         | |- context [if ok ?r then _ else _] =>
             destruct (ok r) eqn:?; simpl
         | |- context [if caches_open_ok ?E ?n then _ else _] =>
             destruct (caches_open_ok E n) eqn:?; simpl
         | |- context [if caches_match_ok ?E then _ else _] =>
             destruct (caches_match_ok E) eqn:?; simpl
         | |- context [if cache_put_ok ?E ?n ?k then _ else _] =>
             destruct (cache_put_ok E n k) eqn:?; simpl
         | |- context [match storage_match ?cs ?k with _ => _ end] =>
             destruct (storage_match cs k) eqn:?; simpl
         end.

Ltac step_async :=
  unfold_async; simpl;
  repeat match goal with
         | H : ?x = _ |- context [?x] => rewrite H; simpl
         end.

(** The two network-first handlers run the same first half: what it does to
    the world, apart from the console line. *)
Lemma network_first_caches (E : Env) (request : Request) (w : World) :
  caches (after (handleEpubFile E request) w) = caches (after (handleDynamicRequest E request) w)
  /\ fetched (after (handleEpubFile E request) w) = fetched (after (handleDynamicRequest E request) w).
Proof.
  unfold handleEpubFile, handleDynamicRequest. unfold_async. simpl.
  destruct (net E (url request)) as [r|]; simpl.
  - destruct (ok r); simpl.
    + destruct (caches_open_ok E DYNAMIC_CACHE); simpl.
      * split; reflexivity.
      * destruct (caches_match_ok E); simpl; [|split; reflexivity].
        destruct (storage_match (caches w) (url request)); split; reflexivity.
    + destruct (caches_match_ok E); simpl; [|split; reflexivity].
      destruct (storage_match (caches w) (url request)); split; reflexivity.
  - destruct (caches_match_ok E); simpl; [|split; reflexivity].
    destruct (storage_match (caches w) (url request)); split; reflexivity.
Qed.

Lemma handleStaticAsset_hit (E : Env) (w : World) (request : Request) (cached : Response) :
  caches_match_ok E = true ->
  storage_match (caches w) (url request) = Some cached ->
  handleStaticAsset E request w = (Resolved cached, w).
Proof.
  intros Hok Hhit. unfold handleStaticAsset. unfold_async. now rewrite Hok, Hhit.
Qed.

(** X4.  The first request for a static asset, the network and the storage
    working: the response is returned, its copy is in the cache, and the
    next request for the key is answered from there without a fetch. *)
Lemma handleStaticAsset_then_cached (E : Env) (w : World) (request : Request) (r : Response) :
  caches_match_ok E = true ->
  storage_match (caches w) (url request) = None ->
  net E (url request) = Some r ->
  ok r = true ->
  caches_open_ok E STATIC_CACHE = true ->
  cache_put_ok E STATIC_CACHE (url request) = true ->
  let w1 := after (handleStaticAsset E request) w in
  run (handleStaticAsset E request) w = Resolved r /\
  fetched w1 = fetched w ++ [url request] /\
  storage_match (caches w1) (url request) = Some r /\
  handleStaticAsset E request w1 = (Resolved r, w1).
Proof.
  intros Hok Hmiss Hnet Hr Hopen Hput.
  assert (Hfirst : handleStaticAsset E request w
                   = (Resolved r,
                      set_caches (add_fetched w [url request])
                        (storage_update (storage_open (caches w) STATIC_CACHE) STATIC_CACHE
                           (fun c => cache_put c (url request) r (now w))))).
  { unfold handleStaticAsset. unfold_async. rewrite Hok, Hmiss. simpl.
    rewrite Hnet, Hr. simpl. rewrite Hopen. simpl. rewrite Hput. reflexivity. }
  unfold run, after. rewrite Hfirst. cbn [fst snd fetched caches set_caches add_fetched].
  assert (Hstored : storage_match
                      (storage_update (storage_open (caches w) STATIC_CACHE) STATIC_CACHE
                         (fun c => cache_put c (url request) r (now w))) (url request) = Some r).
  { apply storage_match_put with (c := cache_of (caches w) STATIC_CACHE).
    - now rewrite storage_match_open.
    - apply storage_find_open. }
  repeat split; [exact Hstored|].
  apply handleStaticAsset_hit; [exact Hok | exact Hstored].
Qed.

(** C3.  Cache-first: when the cache lookup finds an entry for the request,
    [handleStaticAsset] resolves with that entry and does not call [fetch]:
    the list of fetched URLs, and the whole world, are as before. *)
Theorem static_cached_no_network (E : Env) (w : World) (request : Request) (cached : Response) :
  caches_match_ok E = true ->
  storage_match (caches w) (url request) = Some cached ->
  run (handleStaticAsset E request) w = Resolved cached /\
  fetched (after (handleStaticAsset E request) w) = fetched w /\
  after (handleStaticAsset E request) w = w.
Proof.
  intros Hok Hhit. unfold run, after.
  rewrite (handleStaticAsset_hit E w request Hok Hhit). auto.
Qed.

(** C4.  Document strategy with the network down: a cached entry for the key
    is the answer; without one the answer is the synthetic response of
    status 404. *)
Theorem epub_offline_fallback (E : Env) (w : World) (request : Request) :
  net E (url request) = None ->
  caches_match_ok E = true ->
  (forall cached, storage_match (caches w) (url request) = Some cached ->
                  run (handleEpubFile E request) w = Resolved cached) /\
  (storage_match (caches w) (url request) = None ->
   run (handleEpubFile E request) w = Resolved epubUnavailable /\
   status epubUnavailable = 404).
Proof.
  intros Hnet Hok. split.
  - intros cached Hhit. unfold handleEpubFile. step_async. reflexivity.
  - intros Hmiss. unfold handleEpubFile. step_async. auto.
Qed.

(** C5.  "Other" strategy with no answer from the network (the fetch rejects
    or the status is not ok) and no cache entry: the answer is the offline
    page, of status 200 and Content-Type [text/html; charset=utf-8], whose
    body holds the page's heading and refers to nothing outside itself.  The
    page is built by this strategy alone: the other two strategies answer
    with it only when the network or the cache handed it to them, and this
    one only then or as its last resort. *)
Theorem dynamic_offline_page (E : Env) (w : World) (request : Request) :
  fetched_ok (net E (url request)) = false ->
  caches_match_ok E = true ->
  storage_match (caches w) (url request) = None ->
  run (handleDynamicRequest E request) w = Resolved offlinePage /\
  status offlinePage = 200 /\
  header_get "Content-Type" (headers offlinePage) = Some "text/html; charset=utf-8" /\
  JS.includes (body offlinePage) offline_marker = true /\
  self_contained (body offlinePage) = true /\
  (forall E' w' request' s,
      run (handler E' s request') w' = Resolved offlinePage ->
      net E' (url request') = Some offlinePage \/
      storage_match (caches w') (url request') = Some offlinePage \/
      (s = DynamicRequest /\ last_resort E' w' request' = true)).
Proof.
  intros Hnet Hok Hmiss. split; [|split; [|split; [|split; [|split]]]].
  - unfold handleDynamicRequest. unfold_async. simpl.
    destruct (net E (url request)) as [r|]; simpl in *.
    + rewrite Hnet. simpl. rewrite Hok, Hmiss. reflexivity.
    + rewrite Hok, Hmiss. reflexivity.
  - reflexivity.
  - reflexivity.
  - vm_compute. reflexivity.
  - vm_compute. reflexivity.
  - intros E' w' request' s. unfold last_resort, network_answer_kept.
    destruct s; simpl; unfold handleStaticAsset, handleEpubFile, handleDynamicRequest;
      cases_async; intros H; try discriminate H;
      try (injection H as H;
           try (apply (f_equal status) in H; discriminate H); subst);
      auto 8.
Qed.

Lemma static_cached_no_network_witness :
  let w := world_of [(STATIC_CACHE, [mkEntry "https://reader.example/app.js" (plain 200 "js") 0])] in
  let request := GET "https://reader.example/app.js" in
  run (handleStaticAsset offline_env request) w = Resolved (plain 200 "js") /\
  fetched (after (handleStaticAsset offline_env request) w) = fetched w /\
  after (handleStaticAsset offline_env request) w = w.
Proof.
  apply (static_cached_no_network offline_env
           (world_of [(STATIC_CACHE, [mkEntry "https://reader.example/app.js" (plain 200 "js") 0])])
           (GET "https://reader.example/app.js")); reflexivity.
Defined.

Lemma epub_offline_fallback_witness :
  let w := world_of [(DYNAMIC_CACHE, [mkEntry "https://reader.example/a.epub" (plain 200 "book") 0])] in
  run (handleEpubFile offline_env (GET "https://reader.example/a.epub")) w = Resolved (plain 200 "book") /\
  run (handleEpubFile offline_env (GET "https://reader.example/b.epub")) w = Resolved epubUnavailable.
Proof.
  split.
  - apply (epub_offline_fallback offline_env
             (world_of [(DYNAMIC_CACHE, [mkEntry "https://reader.example/a.epub" (plain 200 "book") 0])])
             (GET "https://reader.example/a.epub")); reflexivity.
  - apply (epub_offline_fallback offline_env
             (world_of [(DYNAMIC_CACHE, [mkEntry "https://reader.example/a.epub" (plain 200 "book") 0])])
             (GET "https://reader.example/b.epub")); reflexivity.
Defined.

Lemma dynamic_offline_page_witness :
  run (handleDynamicRequest offline_env (GET "https://reader.example/shelf")) empty_world
  = Resolved offlinePage.
Proof.
  apply (dynamic_offline_page offline_env empty_world (GET "https://reader.example/shelf"));
    reflexivity.
Defined.

(** C6.  Whatever the strategy, a network response whose status is not ok
    leaves the cache storage as it was: nothing is stored, no cache is
    opened. *)
Theorem not_ok_never_cached (E : Env) (w : World) (request : Request)
        (s : Strategy) (response : Response) :
  net E (url request) = Some response ->
  ok response = false ->
  caches (after (handler E s request) w) = caches w.
Proof.
  intros Hnet Hbad.
  destruct s; simpl; unfold handleStaticAsset, handleEpubFile, handleDynamicRequest;
    unfold_async; simpl; rewrite Hnet; simpl; rewrite Hbad; simpl;
    destruct (caches_match_ok E); simpl; try reflexivity;
    destruct (storage_match (caches w) (url request)); reflexivity.
Qed.

Lemma not_ok_never_cached_witness :
  caches (after (handler (answering_env (plain 500 "oops")) StaticAsset
                   (GET "https://reader.example/app.js")) empty_world) = [] /\
  caches (after (handler (answering_env (plain 404 "none")) EpubFile
                   (GET "https://reader.example/a.epub")) empty_world) = [] /\
  caches (after (handler (answering_env (plain 302 "moved")) DynamicRequest
                   (GET "https://reader.example/shelf")) empty_world) = [].
Proof.
  split; [|split].
  - apply (not_ok_never_cached (answering_env (plain 500 "oops")) empty_world
             (GET "https://reader.example/app.js") StaticAsset (response := plain 500 "oops"));
      reflexivity.
  - apply (not_ok_never_cached (answering_env (plain 404 "none")) empty_world
             (GET "https://reader.example/a.epub") EpubFile (response := plain 404 "none"));
      reflexivity.
  - apply (not_ok_never_cached (answering_env (plain 302 "moved")) empty_world
             (GET "https://reader.example/shelf") DynamicRequest (response := plain 302 "moved"));
      reflexivity.
Defined.

(** C7, as the specification words it, fails: with no cache entry and no
    network, the body of the 503 answer is not the specification's English
    sentence. *)
Lemma static_unavailable_body_differs :
  exists r,
    run (handleStaticAsset offline_env (GET "https://reader.example/app.js")) empty_world
    = Resolved r /\
    status r = 503 /\
    body r <> spec_static_body.
Proof.
  exists staticUnavailable. repeat split. discriminate.
Qed.

(** C7, amended.  Cache-first with no cache entry and a fetch that rejects:
    the answer is the synthetic response of status 503 whose body is the
    text of the source, [离线模式 - 无法加载资源]. *)
Theorem static_offline_503 (E : Env) (w : World) (request : Request) :
  caches_match_ok E = true ->
  storage_match (caches w) (url request) = None ->
  net E (url request) = None ->
  run (handleStaticAsset E request) w = Resolved staticUnavailable /\
  status staticUnavailable = 503 /\
  body staticUnavailable = "离线模式 - 无法加载资源" /\
  caches (after (handleStaticAsset E request) w) = caches w.
Proof.
  intros Hok Hmiss Hnet. unfold handleStaticAsset. step_async. auto.
Qed.

Lemma static_offline_503_witness :
  run (handleStaticAsset offline_env (GET "https://reader.example/app.js")) empty_world
  = Resolved staticUnavailable.
Proof.
  apply (static_offline_503 offline_env empty_world (GET "https://reader.example/app.js"));
    reflexivity.
Defined.

(** C10.  [handleEpubFile] and [handleDynamicRequest], run on the same
    request in the same world against the same platform, leave the same
    cache storage and make the same fetch calls; they resolve or reject
    alike, with the same response, except at the last resort, where the
    first answers 404 and the second the offline page of status 200. *)
Theorem epub_dynamic_equivalent (E : Env) (w : World) (request : Request) :
  caches (after (handleEpubFile E request) w) = caches (after (handleDynamicRequest E request) w) /\
  fetched (after (handleEpubFile E request) w) = fetched (after (handleDynamicRequest E request) w) /\
  (if last_resort E w request
   then run (handleEpubFile E request) w = Resolved epubUnavailable /\
        run (handleDynamicRequest E request) w = Resolved offlinePage
   else run (handleEpubFile E request) w = run (handleDynamicRequest E request) w) /\
  status epubUnavailable = 404 /\
  status offlinePage = 200.
Proof.
  destruct (network_first_caches E request w) as [Hc Hf].
  split; [exact Hc|]. split; [exact Hf|]. split; [|split; reflexivity].
  unfold last_resort, network_answer_kept, handleEpubFile, handleDynamicRequest.
  cases_async; auto.
Qed.

(** ** Classification *)

(** C8, as stated, fails: a GET request for a document on the CDN host ends
    in [.epub], is intercepted, and goes to the static strategy, because the
    listener asks [isStaticAsset] first. *)
Lemma epub_on_cdn_is_static :
  let request := mkRequest "GET" "https://cdn.jsdelivr.net/gh/reader/books/moby-dick.epub"
                           "https:" "cdn.jsdelivr.net" in
  JS.endsWith (url request) ".epub" = true /\
  isEpubFile (url request) = true /\
  onFetch request = RespondWith StaticAsset /\
  onFetch request <> RespondWith EpubFile.
Proof.
  repeat split. discriminate.
Qed.

(** C8, amended.  An intercepted request whose URL ends in [.epub] or holds
    [.epub] anywhere, and which [isStaticAsset] does not claim, is answered
    by the document strategy [handleEpubFile]. *)
Theorem epub_dispatch (request : Request) :
  onFetch request <> PassThrough ->
  isStaticAsset (url request) = false ->
  ((exists before, url request = (before ++ ".epub")%string) \/
   (exists before rest, url request = (before ++ ".epub" ++ rest)%string)) ->
  isEpubFile (url request) = true /\
  onFetch request = RespondWith EpubFile /\
  (forall E, handler E EpubFile request = handleEpubFile E request).
Proof.
  intros Hint Hstatic Hepub.
  assert (Hfile : isEpubFile (url request) = true).
  { unfold isEpubFile. apply orb_true_iff. right.
    destruct Hepub as [H | H].
    - apply endsWith_includes, endsWith_spec, H.
    - apply includes_spec, H. }
  split; [exact Hfile|]. split; [|reflexivity].
  unfold onFetch in *.
  destruct (negb (method request =? "GET")%string); [contradiction|].
  destruct ((protocol request =? "chrome-extension:")%string
            || (hostname request =? "chrome-devtools-frontend.appspot.com")%string);
    [contradiction|].
  rewrite Hstatic, Hfile. reflexivity.
Qed.

Lemma epub_dispatch_witness :
  onFetch (GET "https://reader.example/books/moby-dick.epub?v=2") = RespondWith EpubFile.
Proof.
  apply (epub_dispatch (GET "https://reader.example/books/moby-dick.epub?v=2")).
  - discriminate.
  - reflexivity.
  - right. exists "https://reader.example/books/moby-dick", "?v=2". reflexivity.
Defined.

(** ** Activation *)

Lemma negb_current (name : string) :
  negb (name =? STATIC_CACHE)%string && negb (name =? DYNAMIC_CACHE)%string
  = negb (is_current name).
Proof. unfold is_current. now rewrite negb_orb. Qed.

Lemma is_current_spec (name : string) :
  is_current name = true <-> name = STATIC_CACHE \/ name = DYNAMIC_CACHE.
Proof. unfold is_current. now rewrite orb_true_iff, !String.eqb_eq. Qed.

(** The world after [Promise.all]: every operation has run, in turn. *)
Lemma promise_all_after {A} (ps : list (Async A)) (w : World) :
  snd (promise_all ps w) = fold_left (fun w' p => snd (p w')) ps w.
Proof.
  revert w. induction ps as [|p ps IH]; intros w; [reflexivity|].
  cbn [promise_all fold_left].
  destruct (p w) as [r w1]. specialize (IH w1).
  destruct (promise_all ps w1) as [rs w2]. exact IH.
Qed.

Lemma fold_left_caches {A B} (f : A -> Async B) (g : CacheStorage -> A -> CacheStorage)
      (xs : list A) (w : World) :
  (forall x w', caches (snd (f x w')) = g (caches w') x) ->
  caches (fold_left (fun w' p => snd (p w')) (map f xs) w) = fold_left g xs (caches w).
Proof.
  intros Hstep. revert w. induction xs as [|x xs IH]; intros w; [reflexivity|].
  cbn [map fold_left]. rewrite IH, Hstep. reflexivity.
Qed.

(** The deletions started by the activate listener, one per name. *)
Lemma activate_deletions (E : Env) (names : list string) (w : World) :
  caches (snd (promise_all
                 (map (fun cacheName =>
                         if negb (cacheName =? STATIC_CACHE)%string &&
                            negb (cacheName =? DYNAMIC_CACHE)%string
                         then console_log ["删除旧缓存:"; cacheName] ;;
                              deleted <- caches_delete E cacheName ;;
                              ret (Some deleted)
                         else ret None)
                      names) w))
  = fold_left (sweep_name E) names (caches w).
Proof.
  rewrite promise_all_after. apply fold_left_caches.
  intros n w'. rewrite negb_current. unfold sweep_name.
  destruct (negb (is_current n)); simpl; [|reflexivity].
  unfold bind, console_log, caches_delete, ret. simpl.
  destruct (caches_delete_ok E n); reflexivity.
Qed.

Lemma sweep_names_In (E : Env) (names : list string) (cs : CacheStorage) (n : string) (c : Cache) :
  In (n, c) (fold_left (sweep_name E) names cs) <->
  In (n, c) cs /\ ~ (In n names /\ is_current n = false /\ caches_delete_ok E n = true).
Proof.
  revert cs. induction names as [|m names IH]; intros cs; simpl.
  - tauto.
  - rewrite IH. unfold sweep_name.
    destruct (is_current m) eqn:Hm; simpl.
    + split; intros [Hin Hno]; (split; [exact Hin|]); intros [Hn [Hc Hd]].
      * destruct Hn as [-> | Hn]; [congruence | apply Hno; auto].
      * apply Hno; auto.
    + destruct (caches_delete_ok E m) eqn:Hd'; simpl.
      * unfold storage_delete. rewrite filter_In. simpl.
        rewrite negb_true_iff, String.eqb_neq.
        split.
        -- intros [[Hin Hne] Hno]. split; [exact Hin|].
           intros [[-> | Hn] [Hc Hd]]; [congruence | apply Hno; auto].
        -- intros [Hin Hno]. split; [split; [exact Hin|] |].
           ++ intros ->. apply Hno; auto.
           ++ intros [Hn [Hc Hd]]. apply Hno; auto.
      * split; intros [Hin Hno]; (split; [exact Hin|]); intros [Hn [Hc Hd]].
        -- destruct Hn as [-> | Hn]; [congruence | apply Hno; auto].
        -- apply Hno; auto.
Qed.

Lemma activate_caches (E : Env) (w : World) :
  caches_keys_ok E = true ->
  caches (after (onActivate E) w)
  = fold_left (sweep_name E) (storage_keys (caches w)) (caches w).
Proof.
  intros Hkeys. unfold onActivate, after.
  unfold bind at 1. unfold console_log at 1.
  unfold bind at 1. unfold caches_keys. rewrite Hkeys.
  cbn [caches add_console].
  unfold bind at 1.
  match goal with
  | |- context [promise_all ?ps ?w1] =>
      pose proof (activate_deletions E (storage_keys (caches w)) w1) as H;
      destruct (promise_all ps w1) as [rs w2] eqn:Hp
  end.
  simpl in H. destruct rs; simpl; exact H.
Qed.

(** C9.  After the activate listener has run (the list of cache names could
    be read), a cache is still there exactly when it was there before and
    its name is one of the two current names or its deletion failed: every
    other stale cache is gone, whichever deletions failed.  When no deletion
    fails, only the current names remain. *)
Theorem activate_removes_stale (E : Env) (w : World) :
  caches_keys_ok E = true ->
  (forall name cache,
      In (name, cache) (caches (after (onActivate E) w)) <->
      In (name, cache) (caches w) /\
      (name = STATIC_CACHE \/ name = DYNAMIC_CACHE \/ caches_delete_ok E name = false)) /\
  ((forall name, caches_delete_ok E name = true) ->
   forall name, In name (storage_keys (caches (after (onActivate E) w))) ->
                name = STATIC_CACHE \/ name = DYNAMIC_CACHE).
Proof.
  intros Hkeys.
  assert (Hiff : forall name cache,
             In (name, cache) (caches (after (onActivate E) w)) <->
             In (name, cache) (caches w) /\
             (name = STATIC_CACHE \/ name = DYNAMIC_CACHE \/ caches_delete_ok E name = false)).
  { intros name cache. rewrite (activate_caches E w Hkeys), sweep_names_In.
    split; intros [Hin H]; (split; [exact Hin|]).
    - destruct (is_current name) eqn:Hc.
      + apply is_current_spec in Hc. tauto.
      + destruct (caches_delete_ok E name) eqn:Hd; [|tauto].
        exfalso. apply H. split; [|auto].
        unfold storage_keys. apply in_map_iff. exists (name, cache). auto.
    - intros [_ [Hc Hd]].
      destruct H as [H | [H | H]].
      + assert (is_current name = true) by (apply is_current_spec; auto). congruence.
      + assert (is_current name = true) by (apply is_current_spec; auto). congruence.
      + congruence. }
  split; [exact Hiff|].
  intros Hall name Hin. unfold storage_keys in Hin.
  apply in_map_iff in Hin. destruct Hin as [[n c] [Hn Hin]]. simpl in Hn. subst n.
  apply Hiff in Hin. destruct Hin as [_ [H | [H | H]]]; auto.
  rewrite Hall in H. discriminate.
Qed.

Example activate_mixed_storage :
  storage_keys (caches (after (onActivate offline_env) (world_of mixed_storage)))
  = [STATIC_CACHE; DYNAMIC_CACHE].
Proof. reflexivity. Qed.

Example activate_one_deletion_fails :
  storage_keys (caches (after (onActivate (undeletable_env "reader-static-v0.9.0"))
                          (world_of mixed_storage)))
  = [STATIC_CACHE; DYNAMIC_CACHE; "reader-static-v0.9.0"]
  /\ run (onActivate (undeletable_env "reader-static-v0.9.0")) (world_of mixed_storage)
     = Rejected "caches.delete failed".
Proof. split; reflexivity. Qed.

Lemma activate_removes_stale_witness :
  caches_keys_ok (undeletable_env "reader-static-v0.9.0") = true /\
  forall name cache,
    In (name, cache)
       (caches (after (onActivate (undeletable_env "reader-static-v0.9.0"))
                  (world_of mixed_storage))) <->
    In (name, cache) (caches (world_of mixed_storage)) /\
    (name = STATIC_CACHE \/ name = DYNAMIC_CACHE \/
     caches_delete_ok (undeletable_env "reader-static-v0.9.0") name = false).
Proof.
  split; [reflexivity|].
  apply (activate_removes_stale (undeletable_env "reader-static-v0.9.0")
           (world_of mixed_storage)).
  reflexivity.
Defined.

(** ** Installation *)

Lemma asset_fails_addAll (E : Env) (urls : list string) :
  (exists asset, In asset urls /\ asset_fails E asset = true) ->
  forallb fetched_ok (map (net E) (map (resolve_url E) urls))
  && forallb (cache_put_ok E STATIC_CACHE) (map (resolve_url E) urls) = false.
Proof.
  intros [asset [Hin Hfail]].
  apply andb_false_iff. unfold asset_fails in Hfail.
  apply orb_true_iff in Hfail. destruct Hfail as [H | H]; apply negb_true_iff in H.
  - left. apply not_true_is_false. intros Hall.
    rewrite forallb_forall in Hall.
    rewrite Hall in H; [discriminate|].
    apply in_map, in_map, Hin.
  - right. apply not_true_is_false. intros Hall.
    rewrite forallb_forall in Hall.
    rewrite Hall in H; [discriminate|].
    apply in_map, Hin.
Qed.

(** C2, as stated, fails: with no network at all the manifest cannot be
    fetched, yet the promise handed to [event.waitUntil] resolves, so the
    browser sees an installation that succeeded; the error went to the
    console. *)
Lemma install_failure_is_swallowed :
  asset_fails offline_env "./index.html" = true /\
  run (onInstall offline_env) empty_world = Resolved tt /\
  run (onInstall offline_env) empty_world <> Rejected "TypeError: cache.addAll failed" /\
  In (Error, ["缓存静态资源失败:"; "TypeError: cache.addAll failed"])
     (console (after (onInstall offline_env) empty_world)).
Proof.
  split; [reflexivity|]. split; [reflexivity|]. split; [discriminate|].
  vm_compute. auto.
Qed.

(** C2, amended.  When an entry of the manifest cannot be fetched or stored,
    [cache.addAll] stores none of them: the storage is as before, apart from
    the static cache having been opened (created empty when it was not there),
    so every lookup answers as before.  The failure is written to the console
    and goes no further: the promise of the install listener resolves, and
    [skipWaiting] is not called. *)
Theorem install_all_or_nothing (E : Env) (w : World) :
  (exists asset, In asset STATIC_ASSETS /\ asset_fails E asset = true) ->
  run (onInstall E) w = Resolved tt /\
  caches (after (onInstall E) w)
  = (if caches_open_ok E STATIC_CACHE then storage_open (caches w) STATIC_CACHE else caches w) /\
  (forall key, storage_match (caches (after (onInstall E) w)) key = storage_match (caches w) key) /\
  skipped_waiting (after (onInstall E) w) = skipped_waiting w /\
  (exists error, In (Error, ["缓存静态资源失败:"; error]) (console (after (onInstall E) w))).
Proof.
  intros Hfail. pose proof (asset_fails_addAll E STATIC_ASSETS Hfail) as Hall.
  pose proof (fun cs key => storage_match_open cs STATIC_CACHE key) as Hmatch.
  unfold onInstall, run, after, bind, try_catch, console_log, console_error,
    caches_open, cache_addAll, skipWaiting, ret.
  cbn [fst snd caches add_console].
  destruct (caches_open_ok E STATIC_CACHE); cbn [fst snd caches add_console set_caches add_fetched].
  - rewrite Hall. cbn.
    repeat split; auto.
    eexists. apply in_or_app. right. left. reflexivity.
  - cbn. repeat split; auto.
    eexists. apply in_or_app. right. left. reflexivity.
Qed.

Lemma install_all_or_nothing_witness :
  (exists asset, In asset STATIC_ASSETS /\ asset_fails offline_env asset = true) /\
  run (onInstall offline_env) empty_world = Resolved tt /\
  caches (after (onInstall offline_env) empty_world) = [(STATIC_CACHE, [])].
Proof.
  assert (H : exists asset, In asset STATIC_ASSETS /\ asset_fails offline_env asset = true).
  { exists "./". split; [left; reflexivity | reflexivity]. }
  split; [exact H|].
  destruct (install_all_or_nothing offline_env empty_world H) as [Hrun [Hcaches _]].
  split; [exact Hrun | exact Hcaches].
Defined.

(** ** Caches and their histories *)

Lemma cache_delete_keys (c : Cache) (k k' : string) :
  In k' (cache_keys (cache_delete c k)) <-> In k' (cache_keys c) /\ k' <> k.
Proof.
  unfold cache_keys, cache_delete. rewrite !in_map_iff. split.
  - intros [e [He Hin]]. apply filter_In in Hin. destruct Hin as [Hin Hk].
    unfold has_key in Hk. apply negb_true_iff, String.eqb_neq in Hk.
    subst k'. split; [exists e; auto | exact Hk].
  - intros [[e [He Hin]] Hne]. exists e. split; [exact He|].
    apply filter_In. split; [exact Hin|].
    unfold has_key. apply negb_true_iff, String.eqb_neq. congruence.
Qed.

Lemma cache_delete_NoDup (c : Cache) (k : string) :
  NoDup (cache_keys c) -> NoDup (cache_keys (cache_delete c k)).
Proof.
  induction c as [|e c IH]; simpl; intros Hnd; [constructor|].
  inversion Hnd as [|? ? Hnotin Hnd']; subst.
  destruct (negb (has_key k e)); simpl; [|auto].
  constructor; [|auto].
  intros Hin. apply cache_delete_keys in Hin. tauto.
Qed.

Lemma cache_delete_chronological (c : Cache) (k : string) :
  chronological c -> chronological (cache_delete c k).
Proof.
  unfold chronological.
  induction c as [|e c IH]; simpl; intros Hs; [constructor|].
  inversion Hs as [|? ? Hs' Hall]; subst.
  destruct (negb (has_key k e)); simpl; [|auto].
  constructor; [auto|].
  rewrite Forall_forall in *. intros x Hx. apply Hall.
  apply filter_In in Hx. tauto.
Qed.

Lemma chronological_snoc (c : Cache) (e : Entry) :
  chronological c ->
  Forall (fun a => inserted_at a <= inserted_at e) c ->
  chronological (c ++ [e]).
Proof.
  unfold chronological.
  induction c as [|a c IH]; simpl; intros Hs Hall.
  - constructor; constructor.
  - inversion Hs as [|? ? Hs' Ha]; subst.
    inversion Hall as [|? ? Hae Hall']; subst.
    constructor; [auto|].
    apply Forall_app. split; [exact Ha | constructor; [exact Hae | constructor]].
Qed.

Lemma NoDup_snoc {A} (l : list A) (x : A) :
  NoDup l -> ~ In x l -> NoDup (l ++ [x]).
Proof.
  induction l as [|a l IH]; simpl; intros Hnd Hx.
  - constructor; [intros [] | constructor].
  - inversion Hnd as [|? ? Ha Hnd']; subst.
    constructor.
    + rewrite in_app_iff. simpl. intros [H | [H | []]]; [auto | subst; auto].
    + apply IH; auto.
Qed.

Lemma cache_inv_delete (t : nat) (c : Cache) (k : string) :
  cache_inv t c -> cache_inv t (cache_delete c k).
Proof.
  intros [Hnd [Hs Hall]]. split; [|split].
  - apply cache_delete_NoDup, Hnd.
  - apply cache_delete_chronological, Hs.
  - rewrite Forall_forall in *. intros x Hx. apply Hall.
    unfold cache_delete in Hx. apply filter_In in Hx. tauto.
Qed.

Lemma cache_inv_put (t t' : nat) (c : Cache) (k : string) (r : Response) :
  cache_inv t c -> t <= t' -> cache_inv t' (cache_put c k r t').
Proof.
  intros Hinv Hle. destruct (cache_inv_delete k Hinv) as [Hnd [Hs Hall]].
  unfold cache_put. split; [|split].
  - unfold cache_keys in *. rewrite map_app. simpl.
    apply NoDup_snoc; [exact Hnd|].
    intros Hin. apply (cache_delete_keys c k k) in Hin. tauto.
  - apply chronological_snoc; [exact Hs|].
    simpl. rewrite Forall_forall in *. intros x Hx. specialize (Hall x Hx). lia.
  - apply Forall_app. split.
    + rewrite Forall_forall in *. intros x Hx. specialize (Hall x Hx). lia.
    + constructor; [simpl; lia | constructor].
Qed.

Lemma cache_inv_later (t t' : nat) (c : Cache) :
  cache_inv t c -> t <= t' -> cache_inv t' c.
Proof.
  intros [Hnd [Hs Hall]] Hle. split; [exact Hnd | split; [exact Hs|]].
  rewrite Forall_forall in *. intros x Hx. specialize (Hall x Hx). lia.
Qed.

(** Every history in time order keeps the invariant. *)
Lemma cache_inv_history (ops : list CacheOp) (t : nat) (c : Cache) :
  in_time_order t ops = true ->
  cache_inv t c ->
  exists t', cache_inv t' (fold_left apply_op ops c).
Proof.
  revert t c. induction ops as [|op ops IH]; intros t c Hord Hinv; simpl.
  - exists t; exact Hinv.
  - destruct op as [k r t1 | k]; simpl in Hord.
    + apply andb_true_iff in Hord. destruct Hord as [Hle Hord].
      apply Nat.leb_le in Hle.
      apply (IH t1); [exact Hord|]. simpl. apply (cache_inv_put k r Hinv Hle).
    + apply (IH t); [exact Hord|]. simpl. apply cache_inv_delete, Hinv.
Qed.

Lemma replay_inv (ops : list CacheOp) :
  in_time_order 0 ops = true -> exists t, cache_inv t (replay ops).
Proof.
  intros Hord. apply (cache_inv_history ops (t := 0)); [exact Hord|].
  split; [constructor | split; constructor].
Qed.

(** In a list that is oldest first, what comes earlier is not newer. *)
Lemma chronological_app (l1 l2 : Cache) :
  chronological (l1 ++ l2) ->
  forall a b, In a l1 -> In b l2 -> inserted_at a <= inserted_at b.
Proof.
  unfold chronological. induction l1 as [|x l1 IH]; simpl; intros Hs a b Ha Hb; [contradiction|].
  inversion Hs as [|? ? Hs' Hall]; subst.
  destruct Ha as [-> | Ha].
  - rewrite Forall_forall in Hall. apply Hall, in_or_app. auto.
  - apply IH; auto.
Qed.

Lemma NoDup_map_app_neq {A B} (f : A -> B) (l1 l2 : list A) :
  NoDup (map f (l1 ++ l2)) ->
  forall a b, In a l1 -> In b l2 -> f a <> f b.
Proof.
  induction l1 as [|x l1 IH]; simpl; intros Hnd a b Ha Hb; [contradiction|].
  inversion Hnd as [|? ? Hx Hnd']; subst.
  destruct Ha as [-> | Ha].
  - intros Heq. apply Hx. rewrite Heq. apply in_map, in_or_app. auto.
  - apply IH; auto.
Qed.

(** Deleting the first [m] keys of the listing, one after the other, leaves
    the listing without its first [m] entries. *)
Lemma delete_not_stored (c : Cache) (k : string) :
  ~ In k (cache_keys c) -> cache_delete c k = c.
Proof.
  induction c as [|e c IH]; simpl; intros Hk; [reflexivity|].
  unfold has_key at 1.
  destruct (String.eqb_spec (entry_key e) k) as [Heq | Hne]; simpl.
  - exfalso. apply Hk. auto.
  - f_equal. apply IH. intros H. apply Hk. auto.
Qed.

Lemma delete_first_keys (m : nat) (c : Cache) :
  NoDup (cache_keys c) ->
  fold_left cache_delete (firstn m (cache_keys c)) c = skipn m c.
Proof.
  revert c. induction m as [|m IH]; intros c Hnd; [reflexivity|].
  destruct c as [|e c]; [reflexivity|].
  simpl in Hnd. inversion Hnd as [|? ? He Hnd']; subst.
  cbn [cache_keys map firstn fold_left skipn].
  assert (Hdel : cache_delete (e :: c) (entry_key e) = c).
  { simpl. unfold has_key at 1. rewrite String.eqb_refl. simpl.
    apply delete_not_stored, He. }
  rewrite Hdel. apply IH, Hnd'.
Qed.

(** ** The eviction sweep *)

(** With a working storage and more than 100 keys in the dynamic cache, the
    sweep deletes the keys that [cache.keys()] lists first. *)
Lemma cleanup_caches (E : Env) (w : World) (c : Cache) :
  caches_open_ok E DYNAMIC_CACHE = true ->
  cache_keys_ok E DYNAMIC_CACHE = true ->
  (forall key, cache_delete_ok E DYNAMIC_CACHE key = true) ->
  storage_find (caches w) DYNAMIC_CACHE = Some c ->
  100 < length c ->
  caches (after (cleanupExpiredCache E) w)
  = storage_update (caches w) DYNAMIC_CACHE
      (fun c0 => fold_left cache_delete (firstn (length c - 100) (cache_keys c)) c0).
Proof.
  intros Hopen Hkeys Hdel Hfind Hlen.
  unfold cleanupExpiredCache, after, try_catch.
  unfold bind at 1. unfold caches_open. rewrite Hopen.
  rewrite (storage_open_found _ _ Hfind).
  unfold bind at 1. unfold cache_keys_op. rewrite Hkeys.
  cbn [caches set_caches]. rewrite Hfind.
  assert (Hn : length (cache_keys c) = length c) by apply length_map.
  rewrite Hn. apply Nat.ltb_lt in Hlen. rewrite Hlen.
  rewrite sort_constant_comparator. unfold JS.slice0.
  unfold bind at 1.
  match goal with
  | |- context [promise_all ?ps ?w1] =>
      pose proof (promise_all_after ps w1) as Hafter;
      destruct (promise_all ps w1) as [rs w2]
  end.
  cbn [snd] in Hafter.
  assert (Hw2 : caches w2
                = storage_update (caches w) DYNAMIC_CACHE
                    (fun c0 => fold_left cache_delete (firstn (length c - 100) (cache_keys c)) c0)).
  { rewrite Hafter.
    rewrite (fold_left_caches
               (fun request => cache_delete_op E DYNAMIC_CACHE request)
               (fun cs' k => storage_update cs' DYNAMIC_CACHE (fun c0 => cache_delete c0 k))).
    - cbn [caches set_caches]. apply storage_delete_keys.
    - intros k w'. unfold cache_delete_op. rewrite Hdel. reflexivity. }
  destruct rs; cbn; exact Hw2.
Qed.

(** The sweep goes by the place in the listing.  When the listing happens to
    run oldest first (a cache that came to be by [put]s and [delete]s in time
    order, no two entries with the same insertion instant), the last 100 of
    the listing, which one run of the sweep with a working storage leaves,
    are also the entries inserted last. *)
Theorem cleanup_keeps_newest (E : Env) (w : World) (ops : list CacheOp) :
  in_time_order 0 ops = true ->
  storage_find (caches w) DYNAMIC_CACHE = Some (replay ops) ->
  NoDup (map inserted_at (replay ops)) ->
  100 < length (replay ops) ->
  caches_open_ok E DYNAMIC_CACHE = true ->
  cache_keys_ok E DYNAMIC_CACHE = true ->
  (forall key, cache_delete_ok E DYNAMIC_CACHE key = true) ->
  exists kept,
    storage_find (caches (after (cleanupExpiredCache E) w)) DYNAMIC_CACHE = Some kept /\
    length kept = 100 /\
    kept = skipn (length (replay ops) - 100) (replay ops) /\
    (forall e, In e kept -> In e (replay ops)) /\
    (forall e e', In e kept -> In e' (replay ops) -> ~ In e' kept ->
                  inserted_at e' < inserted_at e).
Proof.
  intros Hord Hfind Hdistinct Hlen Hopen Hkeys Hdel.
  destruct (replay_inv ops Hord) as [t [Hnd [Hchron _]]].
  set (c := replay ops) in *.
  exists (skipn (length c - 100) c).
  split; [|split; [|split; [|split]]].
  - rewrite (cleanup_caches E w Hopen Hkeys Hdel Hfind Hlen).
    rewrite storage_find_update, Hfind. f_equal. apply delete_first_keys, Hnd.
  - rewrite length_skipn. lia.
  - reflexivity.
  - intros e He. rewrite <- (firstn_skipn (length c - 100) c). apply in_or_app. auto.
  - intros e e' He He' Hgone.
    rewrite <- (firstn_skipn (length c - 100) c) in He', Hchron, Hdistinct.
    apply in_app_or in He'. destruct He' as [He' | He']; [|contradiction].
    pose proof (chronological_app _ _ Hchron e' e He' He) as Hle.
    pose proof (NoDup_map_app_neq inserted_at _ _ Hdistinct e' e He' He) as Hne.
    lia.
Qed.


Example cleanup_full_shelf :
  match storage_find (caches (after (cleanupExpiredCache offline_env) full_shelf)) DYNAMIC_CACHE with
  | Some kept => cache_keys kept = map book_url (seq 50 100)
  | None => False
  end.
Proof. vm_compute. reflexivity. Qed.

Lemma cleanup_keeps_newest_witness :
  exists kept,
    storage_find (caches (after (cleanupExpiredCache offline_env) full_shelf)) DYNAMIC_CACHE
    = Some kept /\
    length kept = 100 /\
    kept = skipn (length (replay (shelf_history 150)) - 100) (replay (shelf_history 150)) /\
    (forall e, In e kept -> In e (replay (shelf_history 150))) /\
    (forall e e', In e kept -> In e' (replay (shelf_history 150)) -> ~ In e' kept ->
                  inserted_at e' < inserted_at e).
Proof.
  apply (cleanup_keeps_newest offline_env full_shelf (shelf_history 150)).
  - vm_compute. reflexivity.
  - reflexivity.
  - assert (H : map inserted_at (replay (shelf_history 150)) = seq 0 150)
      by (vm_compute; reflexivity).
    rewrite H. apply seq_NoDup.
  - apply Nat.ltb_lt. vm_compute. reflexivity.
  - reflexivity.
  - reflexivity.
  - intros key. reflexivity.
Defined.

(** ** How the dynamic cache comes to be

    The handlers and the sweep change the dynamic cache by [put]s at the
    instant of the event and by [delete]s, which is what the histories
    replay. *)

Lemma cache_of_open (cs : CacheStorage) (name other : string) :
  cache_of (storage_open cs name) other = cache_of cs other.
Proof.
  unfold cache_of at 1. destruct (String.eqb_spec other name) as [-> | Hne].
  - now rewrite storage_find_open.
  - now rewrite storage_find_open_other.
Qed.

Lemma cache_of_update (cs : CacheStorage) (name : string) (f : Cache -> Cache) :
  f [] = [] \/ storage_find cs name <> None ->
  cache_of (storage_update cs name f) name = f (cache_of cs name).
Proof.
  intros H. unfold cache_of. rewrite storage_find_update.
  destruct (storage_find cs name); [reflexivity|].
  destruct H as [H | H]; [now rewrite H | contradiction].
Qed.

Lemma cache_of_update_other (cs : CacheStorage) (name other : string) (f : Cache -> Cache) :
  other <> name ->
  cache_of (storage_update cs name f) other = cache_of cs other.
Proof. intros Hne. unfold cache_of. now rewrite storage_find_update_other. Qed.

Lemma cache_of_open_put (cs : CacheStorage) (name k : string) (r : Response) (t : nat) :
  cache_of (storage_update (storage_open cs name) name (fun c => cache_put c k r t)) name
  = cache_put (cache_of cs name) k r t.
Proof.
  rewrite cache_of_update, cache_of_open; [reflexivity|].
  right. rewrite storage_find_open. discriminate.
Qed.

(** One request changes the dynamic cache by at most one [put], of a
    response for the request's key, at the instant of the event. *)
Lemma handler_dynamic_step (E : Env) (s : Strategy) (request : Request) (w : World) :
  exists ops,
    (ops = [] \/ exists r, ops = [Put (url request) r (now w)]) /\
    cache_of (caches (after (handler E s request) w)) DYNAMIC_CACHE
    = fold_left apply_op ops (cache_of (caches w) DYNAMIC_CACHE).
Proof.
  assert (Hnames : DYNAMIC_CACHE <> STATIC_CACHE) by discriminate.
  destruct s; simpl; unfold handleStaticAsset, handleEpubFile, handleDynamicRequest;
    cases_async;
    try (exists []; split; [left; reflexivity |];
         cbn [fold_left];
         try rewrite cache_of_update_other by exact Hnames;
         try rewrite cache_of_open; reflexivity);
    match goal with
    | |- context [cache_put _ _ ?r _] =>
        exists [Put (url request) r (now w)]; split; [right; exists r; reflexivity |];
        cbn [fold_left apply_op]; apply cache_of_open_put
    end.
Qed.

(** X5.  Network-first freshness: a response that arrives with an ok status is
    what both handlers return, and its copy is what the dynamic cache holds
    for the key afterwards. *)
Lemma network_first_fresh (E : Env) (w : World) (request : Request) (r : Response) :
  net E (url request) = Some r ->
  ok r = true ->
  caches_open_ok E DYNAMIC_CACHE = true ->
  cache_put_ok E DYNAMIC_CACHE (url request) = true ->
  run (handleEpubFile E request) w = Resolved r /\
  run (handleDynamicRequest E request) w = Resolved r /\
  cache_match (cache_of (caches (after (handleEpubFile E request) w)) DYNAMIC_CACHE) (url request)
  = Some r /\
  cache_match (cache_of (caches (after (handleDynamicRequest E request) w)) DYNAMIC_CACHE) (url request)
  = Some r.
Proof.
  intros Hnet Hr Hopen Hput.
  unfold handleEpubFile, handleDynamicRequest. unfold_async. simpl.
  rewrite Hnet. simpl. rewrite Hr. simpl. rewrite Hopen. simpl. rewrite Hput. simpl.
  repeat split; rewrite cache_of_open_put; apply cache_match_put.
Qed.

Lemma sweep_deletions (E : Env) (ks : list string) (cs : CacheStorage) :
  fold_left (fun cs' k => if cache_delete_ok E DYNAMIC_CACHE k
                          then storage_update cs' DYNAMIC_CACHE (fun c => cache_delete c k)
                          else cs') ks cs
  = storage_update cs DYNAMIC_CACHE
      (fun c => fold_left cache_delete (filter (cache_delete_ok E DYNAMIC_CACHE) ks) c).
Proof.
  revert cs. induction ks as [|k ks IH]; intros cs; simpl.
  - symmetry. apply storage_update_id.
  - rewrite IH. destruct (cache_delete_ok E DYNAMIC_CACHE k); simpl; [|reflexivity].
    apply storage_update_twice.
Qed.

Lemma fold_delete_nil (ks : list string) : fold_left cache_delete ks [] = [].
Proof. induction ks; simpl; auto. Qed.

(** Whatever the platform does, the sweep only deletes from the dynamic
    cache. *)
Lemma cleanup_only_deletes (E : Env) (w : World) :
  exists ks,
    cache_of (caches (after (cleanupExpiredCache E) w)) DYNAMIC_CACHE
    = fold_left cache_delete ks (cache_of (caches w) DYNAMIC_CACHE).
Proof.
  unfold cleanupExpiredCache, after, try_catch.
  unfold bind at 1. unfold caches_open.
  destruct (caches_open_ok E DYNAMIC_CACHE); [|exists []; reflexivity].
  unfold bind at 1. unfold cache_keys_op.
  destruct (cache_keys_ok E DYNAMIC_CACHE);
    [|exists []; cbn; apply cache_of_open].
  cbn [caches set_caches].
  match goal with
  | |- context [if 100 <? ?n then _ else _] => destruct (100 <? n)
  end; [|exists []; cbn; apply cache_of_open].
  unfold bind at 1.
  match goal with
  | |- context [promise_all (map _ ?ks) ?w1] =>
      exists (filter (cache_delete_ok E DYNAMIC_CACHE) ks);
      assert (Hw2 : cache_of (caches (snd (promise_all
                        (map (fun request => cache_delete_op E DYNAMIC_CACHE request) ks) w1)))
                      DYNAMIC_CACHE
                    = fold_left cache_delete (filter (cache_delete_ok E DYNAMIC_CACHE) ks)
                        (cache_of (caches w) DYNAMIC_CACHE))
  end.
  { rewrite promise_all_after.
    rewrite (fold_left_caches
               (fun request => cache_delete_op E DYNAMIC_CACHE request)
               (fun cs' k => if cache_delete_ok E DYNAMIC_CACHE k
                             then storage_update cs' DYNAMIC_CACHE (fun c => cache_delete c k)
                             else cs')).
    - cbn [caches set_caches]. rewrite sweep_deletions.
      rewrite cache_of_update by (left; apply fold_delete_nil).
      now rewrite cache_of_open.
    - intros k w'. unfold cache_delete_op.
      destruct (cache_delete_ok E DYNAMIC_CACHE k); reflexivity. }
  match goal with
  | |- context [promise_all ?ps ?w1] =>
      revert Hw2; destruct (promise_all ps w1) as [rs w2]
  end.
  intros Hw2. destruct rs; cbn in *; exact Hw2.
Qed.

(** * Further properties of the worker *)

(** ** Interception and classification *)

Lemma append_assoc (a b c : string) : ((a ++ b) ++ c)%string = (a ++ b ++ c)%string.
Proof. induction a; simpl; congruence. Qed.

Lemma includes_trans (s mid sub : string) :
  JS.includes s mid = true -> JS.includes mid sub = true -> JS.includes s sub = true.
Proof.
  rewrite !includes_spec. intros [a [b ->]] [c [d ->]].
  exists (a ++ c)%string, (d ++ b)%string. now rewrite !append_assoc.
Qed.

(** X1.  The fetch listener leaves a request to the browser exactly when its
    method is not GET, its scheme is [chrome-extension:] or its host is the
    DevTools front end; every other request is answered by a strategy. *)
Theorem passthrough_iff (request : Request) :
  onFetch request = PassThrough <->
  method request <> "GET" \/
  protocol request = "chrome-extension:" \/
  hostname request = "chrome-devtools-frontend.appspot.com".
Proof.
  unfold onFetch.
  destruct (String.eqb_spec (method request) "GET") as [Hm | Hm]; simpl.
  - destruct (String.eqb_spec (protocol request) "chrome-extension:") as [Hp | Hp]; simpl.
    + split; auto.
    + destruct (String.eqb_spec (hostname request) "chrome-devtools-frontend.appspot.com")
        as [Hh | Hh]; simpl.
      * split; auto.
      * destruct (isStaticAsset (url request)); [|destruct (isEpubFile (url request))];
          (split; [discriminate | intros [H | [H | H]]; contradiction]).
  - split; auto.
Qed.

(** X2.  Of the manifest only the entry [./] matters to [isStaticAsset]: a
    URL that holds [./index.html] or [./manifest.json] holds [./], and one
    that holds a script URL of the manifest holds the CDN host.  So a URL is
    static exactly when it holds [./] or [cdn.jsdelivr.net] or ends in
    [.js], [.css] or [.json]. *)
Theorem isStaticAsset_reduced (u : string) :
  isStaticAsset u =
  JS.includes u "./" || JS.includes u "cdn.jsdelivr.net" ||
  JS.endsWith u ".js" || JS.endsWith u ".css" || JS.endsWith u ".json".
Proof.
  unfold isStaticAsset. f_equal. f_equal. f_equal.
  unfold JS.some, STATIC_ASSETS. cbn [existsb].
  assert (H2 : JS.includes u "./index.html" = true -> JS.includes u "./" = true)
    by (intros H; apply includes_trans with (mid := "./index.html"); [exact H | reflexivity]).
  assert (H3 : JS.includes u "./manifest.json" = true -> JS.includes u "./" = true)
    by (intros H; apply includes_trans with (mid := "./manifest.json"); [exact H | reflexivity]).
  assert (H4 : JS.includes u "https://cdn.jsdelivr.net/npm/jszip@3.10.1/dist/jszip.min.js" = true ->
               JS.includes u "cdn.jsdelivr.net" = true)
    by (intros H; apply includes_trans with (mid := "https://cdn.jsdelivr.net/npm/jszip@3.10.1/dist/jszip.min.js"); [exact H | reflexivity]).
  assert (H5 : JS.includes u "https://cdn.jsdelivr.net/npm/epubjs@0.3/dist/epub.min.js" = true ->
               JS.includes u "cdn.jsdelivr.net" = true)
    by (intros H; apply includes_trans with (mid := "https://cdn.jsdelivr.net/npm/epubjs@0.3/dist/epub.min.js"); [exact H | reflexivity]).
  assert (H6 : JS.includes u "https://cdn.jsdelivr.net/npm/marked@12.0.2/marked.min.js" = true ->
               JS.includes u "cdn.jsdelivr.net" = true)
    by (intros H; apply includes_trans with (mid := "https://cdn.jsdelivr.net/npm/marked@12.0.2/marked.min.js"); [exact H | reflexivity]).
  destruct (JS.includes u "./"); [reflexivity|].
  destruct (JS.includes u "./index.html"); [discriminate (H2 eq_refl)|].
  destruct (JS.includes u "./manifest.json"); [discriminate (H3 eq_refl)|].
  destruct (JS.includes u "cdn.jsdelivr.net").
  - now rewrite !orb_true_r.
  - destruct (JS.includes u "https://cdn.jsdelivr.net/npm/jszip@3.10.1/dist/jszip.min.js");
      [discriminate (H4 eq_refl)|].
    destruct (JS.includes u "https://cdn.jsdelivr.net/npm/epubjs@0.3/dist/epub.min.js");
      [discriminate (H5 eq_refl)|].
    destruct (JS.includes u "https://cdn.jsdelivr.net/npm/marked@12.0.2/marked.min.js");
      [discriminate (H6 eq_refl)|].
    reflexivity.
Qed.

(** X3.  [isEpubFile] is the substring test alone: the [endsWith] test adds
    nothing, and a URL is a document exactly when [.epub] occurs in it. *)
Theorem isEpubFile_substring (u : string) :
  isEpubFile u = JS.includes u ".epub" /\
  (isEpubFile u = true <-> exists before rest, u = (before ++ ".epub" ++ rest)%string).
Proof.
  assert (H : isEpubFile u = JS.includes u ".epub").
  { unfold isEpubFile. destruct (JS.endsWith u ".epub") eqn:He; [|reflexivity].
    simpl. symmetry. apply endsWith_includes, He. }
  split; [exact H|]. rewrite H. apply includes_spec.
Qed.


(** ** The strategies, further *)

(** X6.  Cache-first forwards what the server said: with no cache entry, a
    response whose status is not ok is returned as it came (not turned into
    the 503 answer), after one fetch, and nothing is stored. *)
Theorem static_forwards_error_response (E : Env) (w : World) (request : Request) (r : Response) :
  caches_match_ok E = true ->
  storage_match (caches w) (url request) = None ->
  net E (url request) = Some r ->
  ok r = false ->
  run (handleStaticAsset E request) w = Resolved r /\
  fetched (after (handleStaticAsset E request) w) = fetched w ++ [url request] /\
  caches (after (handleStaticAsset E request) w) = caches w.
Proof.
  intros Hok Hmiss Hnet Hr. unfold handleStaticAsset. unfold_async.
  rewrite Hok, Hmiss. simpl. rewrite Hnet, Hr. auto.
Qed.

Lemma static_forwards_error_response_witness :
  run (handleStaticAsset (answering_env (plain 404 "no such file"))
         (GET "https://reader.example/app.js")) empty_world
  = Resolved (plain 404 "no such file").
Proof.
  apply (static_forwards_error_response (answering_env (plain 404 "no such file")) empty_world
           (GET "https://reader.example/app.js") (r := plain 404 "no such file"));
    reflexivity.
Defined.

(** X7.  Cache-first loses a good answer when the static cache cannot be
    opened: the fetch succeeded with an ok status, yet [caches.open] rejects
    inside the [try] block and the request is answered with the 503
    response; the storage is as before. *)
Theorem static_open_failure_503 (E : Env) (w : World) (request : Request) (r : Response) :
  caches_match_ok E = true ->
  storage_match (caches w) (url request) = None ->
  net E (url request) = Some r ->
  ok r = true ->
  caches_open_ok E STATIC_CACHE = false ->
  run (handleStaticAsset E request) w = Resolved staticUnavailable /\
  caches (after (handleStaticAsset E request) w) = caches w /\
  In (Error, ["处理静态资源失败:"; "caches.open failed"])
     (console (after (handleStaticAsset E request) w)).
Proof.
  intros Hok Hmiss Hnet Hr Hopen. unfold handleStaticAsset. unfold_async.
  rewrite Hok, Hmiss. simpl. rewrite Hnet, Hr. simpl. rewrite Hopen. simpl.
  repeat split. apply in_or_app. right. left. reflexivity.
Qed.

Lemma static_open_failure_503_witness :
  run (handleStaticAsset (sealed_env (plain 200 "js"))
         (GET "https://reader.example/app.js")) empty_world
  = Resolved staticUnavailable.
Proof.
  apply (static_open_failure_503 (sealed_env (plain 200 "js")) empty_world
           (GET "https://reader.example/app.js") (r := plain 200 "js"));
    reflexivity.
Defined.

(** X8.  A write that fails goes unnoticed: when the network answers with an
    ok status and the cache opens but [cache.put] rejects, the entries of
    every cache are as before, and the network-first handlers still return
    the network's response, as does the cache-first handler after a miss. *)
Theorem put_failure_swallowed (E : Env) (s : Strategy) (w : World) (request : Request)
        (r : Response) :
  net E (url request) = Some r ->
  ok r = true ->
  caches_open_ok E (target s) = true ->
  cache_put_ok E (target s) (url request) = false ->
  (forall name, cache_of (caches (after (handler E s request) w)) name
                = cache_of (caches w) name) /\
  (s <> StaticAsset -> run (handler E s request) w = Resolved r) /\
  (caches_match_ok E = true -> storage_match (caches w) (url request) = None ->
   run (handler E s request) w = Resolved r).
Proof.
  intros Hnet Hr Hopen Hput.
  destruct s; simpl in *; unfold handleStaticAsset, handleEpubFile, handleDynamicRequest;
    unfold_async; simpl; rewrite ?Hnet; simpl; rewrite ?Hr; simpl;
    rewrite ?Hopen; simpl; rewrite ?Hput; simpl.
  - split; [|split].
    + intros name. destruct (caches_match_ok E); simpl; [|reflexivity].
      destruct (storage_match (caches w) (url request)); simpl; [reflexivity|].
      rewrite ?Hnet; simpl; rewrite ?Hr; simpl; rewrite ?Hopen; simpl; rewrite ?Hput; simpl.
      apply cache_of_open.
    + intros H; contradiction.
    + intros Hok Hmiss. rewrite Hok, Hmiss. simpl.
      rewrite ?Hnet; simpl; rewrite ?Hr; simpl; rewrite ?Hopen; simpl; rewrite ?Hput; simpl.
      reflexivity.
  - split; [|split]; auto. intros name. apply cache_of_open.
  - split; [|split]; auto. intros name. apply cache_of_open.
Qed.

Lemma put_failure_swallowed_witness :
  run (handler (read_only_env (plain 200 "book")) EpubFile
         (GET "https://reader.example/a.epub")) empty_world
  = Resolved (plain 200 "book").
Proof.
  apply (put_failure_swallowed (read_only_env (plain 200 "book")) EpubFile empty_world
           (GET "https://reader.example/a.epub") (r := plain 200 "book"));
    first [reflexivity | discriminate].
Defined.

(** X9.  [handleStaticAsset] never rejects: whatever the network and the
    storage do, the promise resolves with a response. *)
Theorem static_never_rejects (E : Env) (w : World) (request : Request) :
  exists r, run (handleStaticAsset E request) w = Resolved r.
Proof.
  unfold handleStaticAsset. cases_async; eexists; reflexivity.
Qed.

(** X10.  The two network-first handlers reject in one situation only: the
    network's answer was not kept and [caches.match], which they call
    outside the [try] block, rejects. *)
Theorem network_first_rejects_iff (E : Env) (w : World) (request : Request) :
  ((exists e, run (handleEpubFile E request) w = Rejected e) <->
   network_answer_kept E request = false /\ caches_match_ok E = false) /\
  ((exists e, run (handleDynamicRequest E request) w = Rejected e) <->
   network_answer_kept E request = false /\ caches_match_ok E = false).
Proof.
  unfold network_answer_kept, handleEpubFile, handleDynamicRequest.
  split; cases_async;
    (split; [intros [e H]; try discriminate H; auto
            | intros [H1 H2]; try discriminate H1; try discriminate H2; eexists; reflexivity]).
Qed.

(** X11.  How often the network is asked: the network-first handlers fetch
    the request exactly once; the cache-first handler fetches it once when
    the lookup works and misses, and not at all otherwise. *)
Theorem fetch_calls (E : Env) (w : World) (request : Request) :
  fetched (after (handleEpubFile E request) w) = fetched w ++ [url request] /\
  fetched (after (handleDynamicRequest E request) w) = fetched w ++ [url request] /\
  fetched (after (handleStaticAsset E request) w)
  = (if caches_match_ok E
     then match storage_match (caches w) (url request) with
          | Some _ => fetched w
          | None => fetched w ++ [url request]
          end
     else fetched w).
Proof.
  unfold handleStaticAsset, handleEpubFile, handleDynamicRequest.
  repeat split; cases_async; reflexivity.
Qed.


Lemma handleStaticAsset_then_cached_witness :
  let E := answering_env (plain 200 "js") in
  let request := GET "https://reader.example/app.js" in
  let w1 := after (handleStaticAsset E request) empty_world in
  run (handleStaticAsset E request) empty_world = Resolved (plain 200 "js") /\
  fetched w1 = [url request] /\
  storage_match (caches w1) (url request) = Some (plain 200 "js") /\
  handleStaticAsset E request w1 = (Resolved (plain 200 "js"), w1).
Proof.
  apply (handleStaticAsset_then_cached (answering_env (plain 200 "js")) empty_world
           (GET "https://reader.example/app.js") (r := plain 200 "js"));
    reflexivity.
Defined.

Lemma network_first_fresh_witness :
  let E := answering_env (plain 200 "book") in
  let request := GET "https://reader.example/a.epub" in
  run (handleEpubFile E request) empty_world = Resolved (plain 200 "book") /\
  run (handleDynamicRequest E request) empty_world = Resolved (plain 200 "book") /\
  cache_match (cache_of (caches (after (handleEpubFile E request) empty_world)) DYNAMIC_CACHE)
    (url request) = Some (plain 200 "book") /\
  cache_match (cache_of (caches (after (handleDynamicRequest E request) empty_world)) DYNAMIC_CACHE)
    (url request) = Some (plain 200 "book").
Proof.
  apply (network_first_fresh (answering_env (plain 200 "book")) empty_world
           (GET "https://reader.example/a.epub") (r := plain 200 "book"));
    reflexivity.
Defined.

(** X12.  A strategy writes to its own cache only: the entries of every
    other cache are as before the request (the static strategy never touches
    the dynamic cache, the network-first ones never the static cache). *)
Theorem other_caches_untouched (E : Env) (s : Strategy) (w : World) (request : Request)
        (name : string) :
  name <> target s ->
  cache_of (caches (after (handler E s request) w)) name = cache_of (caches w) name.
Proof.
  intros Hne.
  destruct s; simpl in *; unfold handleStaticAsset, handleEpubFile, handleDynamicRequest;
    cases_async;
    rewrite ?cache_of_update_other by exact Hne;
    rewrite ?cache_of_open; reflexivity.
Qed.

Lemma other_caches_untouched_witness :
  let w := world_of [(STATIC_CACHE, [mkEntry "https://reader.example/" (plain 200 "shell") 0])] in
  cache_of (caches (after (handler (answering_env (plain 200 "book")) EpubFile
                             (GET "https://reader.example/")) w)) STATIC_CACHE
  = [mkEntry "https://reader.example/" (plain 200 "shell") 0].
Proof.
  apply (other_caches_untouched (answering_env (plain 200 "book")) EpubFile
           (world_of [(STATIC_CACHE, [mkEntry "https://reader.example/" (plain 200 "shell") 0])])
           (GET "https://reader.example/") (name := STATIC_CACHE)).
  discriminate.
Defined.


(** X14.  The network-first handlers never forward an error of the server: a
    response whose status is not ok is dropped, and the answer is the cache
    entry for the key or, without one, the handler's synthetic answer. *)
Theorem network_first_masks_error (E : Env) (w : World) (request : Request) (r : Response) :
  net E (url request) = Some r ->
  ok r = false ->
  caches_match_ok E = true ->
  run (handleEpubFile E request) w
  = Resolved (match storage_match (caches w) (url request) with
              | Some cached => cached
              | None => epubUnavailable
              end) /\
  run (handleDynamicRequest E request) w
  = Resolved (match storage_match (caches w) (url request) with
              | Some cached => cached
              | None => offlinePage
              end).
Proof.
  intros Hnet Hr Hok. unfold handleEpubFile, handleDynamicRequest. unfold_async. simpl.
  rewrite Hnet. simpl. rewrite Hr. simpl. rewrite Hok.
  destruct (storage_match (caches w) (url request)); auto.
Qed.

Lemma network_first_masks_error_witness :
  run (handleEpubFile (answering_env (plain 500 "server error"))
         (GET "https://reader.example/a.epub")) empty_world
  = Resolved epubUnavailable /\
  run (handleDynamicRequest (answering_env (plain 500 "server error"))
         (GET "https://reader.example/a.epub")) empty_world
  = Resolved offlinePage.
Proof.
  apply (network_first_masks_error (answering_env (plain 500 "server error")) empty_world
           (GET "https://reader.example/a.epub") (r := plain 500 "server error"));
    reflexivity.
Defined.


(** X18.  The network-first handlers lose a good answer when the dynamic
    cache cannot be opened: the fetch succeeded with an ok status, yet
    [caches.open] rejects inside the [try] block, and the request is
    answered from the cache or, without an entry, with the synthetic answer;
    the storage is as before. *)
Theorem network_first_open_failure (E : Env) (w : World) (request : Request) (r : Response) :
  net E (url request) = Some r ->
  ok r = true ->
  caches_open_ok E DYNAMIC_CACHE = false ->
  caches_match_ok E = true ->
  run (handleEpubFile E request) w
  = Resolved (match storage_match (caches w) (url request) with
              | Some cached => cached
              | None => epubUnavailable
              end) /\
  run (handleDynamicRequest E request) w
  = Resolved (match storage_match (caches w) (url request) with
              | Some cached => cached
              | None => offlinePage
              end) /\
  caches (after (handleEpubFile E request) w) = caches w /\
  caches (after (handleDynamicRequest E request) w) = caches w.
Proof.
  intros Hnet Hr Hopen Hok. unfold handleEpubFile, handleDynamicRequest. unfold_async. simpl.
  rewrite Hnet. simpl. rewrite Hr. simpl. rewrite Hopen. simpl. rewrite Hok.
  destruct (storage_match (caches w) (url request)); auto.
Qed.

Lemma network_first_open_failure_witness :
  run (handleEpubFile (sealed_env (plain 200 "book"))
         (GET "https://reader.example/a.epub")) empty_world
  = Resolved epubUnavailable /\
  run (handleDynamicRequest (sealed_env (plain 200 "page"))
         (GET "https://reader.example/shelf")) empty_world
  = Resolved offlinePage.
Proof.
  split.
  - apply (network_first_open_failure (sealed_env (plain 200 "book")) empty_world
             (GET "https://reader.example/a.epub") (r := plain 200 "book"));
      reflexivity.
  - apply (network_first_open_failure (sealed_env (plain 200 "page")) empty_world
             (GET "https://reader.example/shelf") (r := plain 200 "page"));
      reflexivity.
Defined.

(** ** Installation, further *)

Lemma addAll_condition (E : Env) (urls : list string) :
  forallb fetched_ok (map (net E) (map (resolve_url E) urls))
  && forallb (cache_put_ok E STATIC_CACHE) (map (resolve_url E) urls)
  = forallb (fun asset => negb (asset_fails E asset)) urls.
Proof.
  induction urls as [|u urls IH]; [reflexivity|].
  cbn [map forallb]. rewrite <- IH. unfold asset_fails.
  destruct (fetched_ok (net E (resolve_url E u)));
    destruct (cache_put_ok E STATIC_CACHE (resolve_url E u)); simpl;
    rewrite ?andb_false_r; reflexivity.
Qed.

Lemma cache_match_put_other (c : Cache) (k k' : string) (r : Response) (t : nat) :
  k <> k' -> cache_match (cache_put c k' r t) k = cache_match c k.
Proof.
  intros Hne. unfold cache_match, cache_put, cache_delete.
  induction c as [|e c IH]; simpl.
  - unfold has_key. simpl. apply not_eq_sym, String.eqb_neq in Hne. now rewrite Hne.
  - destruct (has_key k' e) eqn:Hk'; simpl.
    + unfold has_key in Hk'. apply String.eqb_eq in Hk'.
      assert (Hk : has_key k e = false).
      { unfold has_key. apply String.eqb_neq. congruence. }
      rewrite Hk. exact IH.
    + destruct (has_key k e); [reflexivity | exact IH].
Qed.

(** After the batch of [addAll], a key of the batch is matched by the
    response fetched for it. *)
Lemma put_fetched_match (t : nat) (kos : list (string * option Response)) (c : Cache)
      (k : string) (r : Response) :
  (forall o, In (k, o) kos -> o = Some r) ->
  In k (map fst kos) \/ cache_match c k = Some r ->
  cache_match (fold_left (put_fetched t) kos c) k = Some r.
Proof.
  revert c. induction kos as [|[k1 o1] kos IH]; intros c Hfun Hin; simpl.
  - destruct Hin as [[] | H]; exact H.
  - apply IH.
    + intros o Ho. apply Hfun. right; exact Ho.
    + destruct (String.eqb_spec k1 k) as [-> | Hne].
      * right. rewrite (Hfun o1) by (left; reflexivity).
        unfold put_fetched. simpl. apply cache_match_put.
      * destruct Hin as [[H | H] | H].
        -- simpl in H. contradiction.
        -- left; exact H.
        -- right. unfold put_fetched. simpl.
           destruct o1; [|exact H].
           rewrite cache_match_put_other by congruence. exact H.
Qed.

Lemma in_combine_map {A B} (f : A -> B) (xs : list A) (x : A) (y : B) :
  In (x, y) (combine xs (map f xs)) -> y = f x.
Proof.
  induction xs as [|a xs IH]; simpl; [contradiction|].
  intros [H | H]; [congruence | auto].
Qed.

Lemma fst_combine_map {A B} (f : A -> B) (xs : list A) :
  map fst (combine xs (map f xs)) = xs.
Proof. induction xs; simpl; congruence. Qed.

(** X15.  Installation with every entry of the manifest fetched with an ok
    status and written: the promise resolves, [skipWaiting] has been called,
    the URLs of the manifest have been fetched in order, and each of them is
    matched in the static cache by the response fetched for it. *)
Theorem install_success (E : Env) (w : World) :
  caches_open_ok E STATIC_CACHE = true ->
  manifest_ok E = true ->
  run (onInstall E) w = Resolved tt /\
  skipped_waiting (after (onInstall E) w) = true /\
  fetched (after (onInstall E) w) = fetched w ++ map (resolve_url E) STATIC_ASSETS /\
  (forall asset, In asset STATIC_ASSETS ->
     exists r, net E (resolve_url E asset) = Some r /\ ok r = true /\
               cache_match (cache_of (caches (after (onInstall E) w)) STATIC_CACHE)
                 (resolve_url E asset) = Some r).
Proof.
  intros Hopen Hall.
  pose proof (addAll_condition E STATIC_ASSETS) as Hcond. fold (manifest_ok E) in Hcond.
  rewrite Hall in Hcond.
  unfold onInstall, run, after, bind, try_catch, console_log, console_error,
    caches_open, cache_addAll, skipWaiting, ret.
  cbn [fst snd caches add_console]. rewrite Hopen.
  cbn [fst snd caches add_console set_caches add_fetched now]. rewrite Hcond.
  cbn [fst snd caches add_console set_caches add_fetched set_skipped_waiting
       skipped_waiting fetched now].
  split; [reflexivity|]. split; [reflexivity|]. split; [reflexivity|].
  intros asset Hin.
  assert (Hfetched : fetched_ok (net E (resolve_url E asset)) = true).
  { unfold manifest_ok in Hall. rewrite forallb_forall in Hall.
    specialize (Hall asset Hin). apply negb_true_iff in Hall.
    unfold asset_fails in Hall. apply orb_false_iff in Hall.
    destruct Hall as [H _]. now apply negb_false_iff in H. }
  destruct (net E (resolve_url E asset)) as [r|] eqn:Hnet; [|discriminate].
  exists r. split; [reflexivity|]. split; [exact Hfetched|].
  rewrite cache_of_update by (right; rewrite storage_find_open; discriminate).
  apply put_fetched_match.
  - intros o Ho. apply in_combine_map in Ho. congruence.
  - left. rewrite fst_combine_map. apply in_map, Hin.
Qed.

Lemma install_success_witness :
  run (onInstall mirror_env) empty_world = Resolved tt /\
  skipped_waiting (after (onInstall mirror_env) empty_world) = true /\
  fetched (after (onInstall mirror_env) empty_world)
  = fetched empty_world ++ map (resolve_url mirror_env) STATIC_ASSETS.
Proof.
  destruct (install_success mirror_env empty_world) as [H1 [H2 [H3 _]]];
    [reflexivity | reflexivity |].
  split; [exact H1 | split; [exact H2 | exact H3]].
Defined.

(** X16.  The promise of the install listener never rejects, whatever the
    network and the storage do; [skipWaiting] is called exactly when the
    static cache opened and the whole manifest was fetched and stored. *)
Theorem install_never_rejects (E : Env) (w : World) :
  run (onInstall E) w = Resolved tt /\
  skipped_waiting (after (onInstall E) w)
  = skipped_waiting w || (caches_open_ok E STATIC_CACHE && manifest_ok E).
Proof.
  pose proof (addAll_condition E STATIC_ASSETS) as Hcond. fold (manifest_ok E) in Hcond.
  unfold onInstall, run, after, bind, try_catch, console_log, console_error,
    caches_open, cache_addAll, skipWaiting, ret.
  cbn [fst snd caches add_console].
  destruct (caches_open_ok E STATIC_CACHE);
    cbn [fst snd caches add_console set_caches add_fetched now].
  - rewrite Hcond. destruct (manifest_ok E); cbn.
    + now rewrite orb_true_r.
    + now rewrite orb_false_r.
  - cbn. now rewrite orb_false_r.
Qed.


(** ** Activation and messages, further *)

(** [Promise.all] resolves exactly when every operation does, provided the
    fate of an operation does not depend on the world it runs in. *)
Lemma promise_all_resolved {A B} (f : A -> Async B) (good : A -> bool) (xs : list A) (w : World) :
  (forall x w', is_resolved (fst (f x w')) = good x) ->
  is_resolved (fst (promise_all (map f xs) w)) = forallb good xs.
Proof.
  intros Hgood. revert w. induction xs as [|x xs IH]; intros w; [reflexivity|].
  cbn [map promise_all forallb].
  specialize (Hgood x w). destruct (f x w) as [r w1]. specialize (IH w1).
  destruct (promise_all (map f xs) w1) as [rs w2].
  simpl in *. rewrite <- Hgood, <- IH.
  destruct r, rs; reflexivity.
Qed.

Lemma promise_all_keeps {A} (P : World -> Prop) (ps : list (Async A)) (w : World) :
  (forall p w', In p ps -> P w' -> P (snd (p w'))) ->
  P w -> P (snd (promise_all ps w)).
Proof.
  rewrite promise_all_after. revert w.
  induction ps as [|p ps IH]; intros w Hstep Hw; [exact Hw|].
  simpl. apply IH.
  - intros q w' Hq. apply Hstep. right; exact Hq.
  - apply Hstep; [left; reflexivity | exact Hw].
Qed.

Lemma onActivate_unfold (E : Env) (w : World) :
  onActivate E w =
  if caches_keys_ok E
  then
    let (rs, w2) := promise_all (map (activate_callback E) (storage_keys (caches w)))
                      (add_console w Log ["Service Worker 激活中..."]) in
    match rs with
    | Resolved _ => (Resolved tt, set_claimed (add_console w2 Log ["Service Worker 激活完成"]))
    | Rejected e => (Rejected e, w2)
    end
  else (Rejected "caches.keys failed", add_console w Log ["Service Worker 激活中..."]).
Proof.
  unfold onActivate, bind, console_log, caches_keys, clients_claim.
  destruct (caches_keys_ok E); reflexivity.
Qed.

Lemma activate_callback_resolved (E : Env) (name : string) (w : World) :
  is_resolved (fst (activate_callback E name w)) = is_current name || caches_delete_ok E name.
Proof.
  unfold activate_callback. rewrite negb_current.
  destruct (is_current name); simpl; [reflexivity|].
  unfold bind, console_log, caches_delete, ret; simpl.
  destruct (caches_delete_ok E name); reflexivity.
Qed.

Lemma activate_callback_claimed (E : Env) (name : string) (w : World) :
  claimed (snd (activate_callback E name w)) = claimed w.
Proof.
  unfold activate_callback. rewrite negb_current.
  destruct (is_current name); simpl; [reflexivity|].
  unfold bind, console_log, caches_delete, ret; simpl.
  destruct (caches_delete_ok E name); reflexivity.
Qed.

(** X17.  The promise of the activate listener resolves exactly when the
    cache names could be listed and every stale cache could be deleted, and
    only then is [clients.claim] called: one failed deletion leaves the open
    pages unclaimed.  When the names cannot be listed, nothing is deleted. *)
Theorem activate_outcome (E : Env) (w : World) :
  is_resolved (run (onActivate E) w) = caches_keys_ok E && stale_deletable E (caches w) /\
  claimed (after (onActivate E) w)
  = claimed w || (caches_keys_ok E && stale_deletable E (caches w)) /\
  (caches_keys_ok E = false -> caches (after (onActivate E) w) = caches w).
Proof.
  unfold run, after. rewrite onActivate_unfold.
  destruct (caches_keys_ok E); cbn [andb];
    [|cbn; rewrite orb_false_r; auto].
  pose proof (promise_all_resolved (activate_callback E)
                (fun name => is_current name || caches_delete_ok E name)
                (storage_keys (caches w))
                (add_console w Log ["Service Worker 激活中..."])
                (activate_callback_resolved E)) as Hres.
  pose proof (promise_all_keeps (fun w' => claimed w' = claimed w)
                (map (activate_callback E) (storage_keys (caches w)))
                (add_console w Log ["Service Worker 激活中..."])) as Hkeep.
  assert (Hkeep' : claimed (snd (promise_all (map (activate_callback E) (storage_keys (caches w)))
                                   (add_console w Log ["Service Worker 激活中..."])))
                   = claimed w).
  { apply Hkeep; [|reflexivity].
    intros p w' Hp Hc. apply in_map_iff in Hp. destruct Hp as [name [<- _]].
    now rewrite activate_callback_claimed. }
  clear Hkeep. fold (stale_deletable E (caches w)) in Hres.
  revert Hres Hkeep'.
  destruct (promise_all (map (activate_callback E) (storage_keys (caches w)))
              (add_console w Log ["Service Worker 激活中..."])) as [rs w2].
  cbn [fst snd]. intros Hres Hkeep. rewrite <- Hres.
  destruct rs; cbn.
  - rewrite orb_true_r. repeat split. discriminate.
  - rewrite orb_false_r. repeat split; [exact Hkeep | discriminate].
Qed.

(** X19.  The message listener acts on [SKIP_WAITING] alone: that message
    calls [skipWaiting]; any other message, or one without data, leaves the
    worker as it was.  No message touches the caches or the network. *)
Theorem message_effect (data_type : option string) (w : World) :
  run (onMessage data_type) w = Resolved tt /\
  skipped_waiting (after (onMessage data_type) w)
  = skipped_waiting w || is_skip_waiting data_type /\
  caches (after (onMessage data_type) w) = caches w /\
  fetched (after (onMessage data_type) w) = fetched w /\
  (is_skip_waiting data_type = false -> after (onMessage data_type) w = w).
Proof.
  unfold onMessage, is_skip_waiting, run, after.
  destruct data_type as [t|]; simpl.
  - destruct (t =? "SKIP_WAITING")%string; simpl.
    + rewrite orb_true_r. repeat split. discriminate.
    + rewrite orb_false_r. repeat split.
  - rewrite orb_false_r. repeat split.
Qed.


(** ** The eviction sweep, further *)

Lemma fold_delete_In (ks : list string) (c : Cache) (e : Entry) :
  In e (fold_left cache_delete ks c) <-> In e c /\ ~ In (entry_key e) ks.
Proof.
  revert c. induction ks as [|k ks IH]; intros c; simpl.
  - tauto.
  - rewrite IH. unfold cache_delete. rewrite filter_In.
    unfold has_key. rewrite negb_true_iff, String.eqb_neq.
    split.
    + intros [[Hin Hne] Hks]. split; [exact Hin|]. intros [H | H]; [congruence | auto].
    + intros [Hin Hks]. split; [split; [exact Hin|] |]; intros H; apply Hks; auto.
Qed.

(** The storage after one run of the sweep, whatever the platform does. *)
Lemma cleanup_storage (E : Env) (w : World) :
  caches (after (cleanupExpiredCache E) w)
  = if caches_open_ok E DYNAMIC_CACHE
    then if cache_keys_ok E DYNAMIC_CACHE && (100 <? length (cache_of (caches w) DYNAMIC_CACHE))
         then storage_update (storage_open (caches w) DYNAMIC_CACHE) DYNAMIC_CACHE
                (fun c => fold_left cache_delete
                            (filter (cache_delete_ok E DYNAMIC_CACHE)
                                    (sweep_keys (cache_of (caches w) DYNAMIC_CACHE))) c)
         else storage_open (caches w) DYNAMIC_CACHE
    else caches w.
Proof.
  unfold cleanupExpiredCache, after, try_catch.
  unfold bind at 1. unfold caches_open.
  destruct (caches_open_ok E DYNAMIC_CACHE); [|reflexivity].
  unfold bind at 1. unfold cache_keys_op.
  destruct (cache_keys_ok E DYNAMIC_CACHE); [|reflexivity].
  cbn [caches set_caches andb]. rewrite storage_find_open.
  unfold cache_keys at 1. rewrite length_map.
  destruct (100 <? length (cache_of (caches w) DYNAMIC_CACHE)); [|reflexivity].
  rewrite sort_constant_comparator. unfold JS.slice0.
  unfold cache_keys at 1. rewrite length_map.
  fold (cache_keys (cache_of (caches w) DYNAMIC_CACHE)).
  fold (sweep_keys (cache_of (caches w) DYNAMIC_CACHE)).
  unfold bind at 1.
  match goal with
  | |- context [promise_all ?ps ?w1] =>
      pose proof (promise_all_after ps w1) as Hafter;
      destruct (promise_all ps w1) as [rs w2]
  end.
  cbn [snd] in Hafter.
  assert (Hw2 : caches w2
                = storage_update (storage_open (caches w) DYNAMIC_CACHE) DYNAMIC_CACHE
                    (fun c => fold_left cache_delete
                                (filter (cache_delete_ok E DYNAMIC_CACHE)
                                        (sweep_keys (cache_of (caches w) DYNAMIC_CACHE))) c)).
  { rewrite Hafter.
    rewrite (fold_left_caches
               (fun request => cache_delete_op E DYNAMIC_CACHE request)
               (fun cs' k => if cache_delete_ok E DYNAMIC_CACHE k
                             then storage_update cs' DYNAMIC_CACHE (fun c => cache_delete c k)
                             else cs')).
    - cbn [caches set_caches]. apply sweep_deletions.
    - intros k w'. unfold cache_delete_op.
      destruct (cache_delete_ok E DYNAMIC_CACHE k); reflexivity. }
  destruct rs; cbn; exact Hw2.
Qed.

(** The dynamic cache after one run of the sweep. *)
Lemma cleanup_dynamic (E : Env) (w : World) :
  cache_of (caches (after (cleanupExpiredCache E) w)) DYNAMIC_CACHE
  = if sweep_deletes E (cache_of (caches w) DYNAMIC_CACHE)
    then fold_left cache_delete
           (filter (cache_delete_ok E DYNAMIC_CACHE)
                   (sweep_keys (cache_of (caches w) DYNAMIC_CACHE)))
           (cache_of (caches w) DYNAMIC_CACHE)
    else cache_of (caches w) DYNAMIC_CACHE.
Proof.
  rewrite cleanup_storage. unfold sweep_deletes.
  destruct (caches_open_ok E DYNAMIC_CACHE); [|reflexivity]. cbn [andb].
  destruct (cache_keys_ok E DYNAMIC_CACHE
            && (100 <? length (cache_of (caches w) DYNAMIC_CACHE))).
  - rewrite cache_of_update by (right; rewrite storage_find_open; discriminate).
    now rewrite cache_of_open.
  - apply cache_of_open.
Qed.

Lemma cleanup_other (E : Env) (w : World) (name : string) :
  name <> DYNAMIC_CACHE ->
  cache_of (caches (after (cleanupExpiredCache E) w)) name = cache_of (caches w) name.
Proof.
  intros Hne. rewrite cleanup_storage.
  destruct (caches_open_ok E DYNAMIC_CACHE); [|reflexivity].
  destruct (cache_keys_ok E DYNAMIC_CACHE
            && (100 <? length (cache_of (caches w) DYNAMIC_CACHE))).
  - rewrite cache_of_update_other by exact Hne. apply cache_of_open.
  - apply cache_of_open.
Qed.

Lemma cleanup_small (E : Env) (w : World) (name : string) :
  length (cache_of (caches w) DYNAMIC_CACHE) <= 100 ->
  cache_of (caches (after (cleanupExpiredCache E) w)) name = cache_of (caches w) name.
Proof.
  intros Hlen. destruct (String.eqb_spec name DYNAMIC_CACHE) as [-> | Hne].
  - rewrite cleanup_dynamic. unfold sweep_deletes.
    apply Nat.ltb_ge in Hlen. rewrite Hlen. now rewrite andb_false_r.
  - apply cleanup_other, Hne.
Qed.

Lemma cleanup_resolves (E : Env) (w : World) :
  run (cleanupExpiredCache E) w = Resolved tt.
Proof.
  unfold cleanupExpiredCache, run, try_catch, console_error, bind, ret.
  match goal with
  | |- fst (match ?m with _ => _ end) = _ => destruct m as [[[]|e] w']; reflexivity
  end.
Qed.

(** X20.  At or below the bound the sweep deletes nothing: with at most 100
    entries in the dynamic cache (exactly 100 included, or no dynamic cache at
    all), the entries of every cache are as before, whatever the platform
    does. *)
Theorem cleanup_within_bound (E : Env) (w : World) :
  length (cache_of (caches w) DYNAMIC_CACHE) <= 100 ->
  forall name, cache_of (caches (after (cleanupExpiredCache E) w)) name
               = cache_of (caches w) name.
Proof. intros Hlen name. apply cleanup_small, Hlen. Qed.

Lemma cleanup_within_bound_witness :
  length (cache_of (caches (shelf_world 100)) DYNAMIC_CACHE) = 100 /\
  forall name, cache_of (caches (after (cleanupExpiredCache offline_env) (shelf_world 100))) name
               = cache_of (caches (shelf_world 100)) name.
Proof.
  split; [vm_compute; reflexivity|].
  apply (cleanup_within_bound offline_env (shelf_world 100)).
  apply Nat.leb_le. vm_compute. reflexivity.
Defined.

(** X21.  The sweep is confined: its promise never rejects (a failure goes
    to the console), it leaves the entries of every cache but the dynamic one
    as they were, and in the dynamic cache it only deletes: every entry found
    there afterwards was there before, unchanged. *)
Theorem cleanup_confined (E : Env) (w : World) :
  run (cleanupExpiredCache E) w = Resolved tt /\
  (forall name, name <> DYNAMIC_CACHE ->
     cache_of (caches (after (cleanupExpiredCache E) w)) name = cache_of (caches w) name) /\
  (forall e, In e (cache_of (caches (after (cleanupExpiredCache E) w)) DYNAMIC_CACHE) ->
             In e (cache_of (caches w) DYNAMIC_CACHE)).
Proof.
  split; [apply cleanup_resolves|]. split; [intros name; apply cleanup_other|].
  intros e. rewrite cleanup_dynamic.
  destruct (sweep_deletes E (cache_of (caches w) DYNAMIC_CACHE)); [|auto].
  rewrite fold_delete_In. tauto.
Qed.


Lemma filter_all {A} (f : A -> bool) (xs : list A) :
  (forall x, f x = true) -> filter f xs = xs.
Proof.
  intros H. induction xs as [|x xs IH]; simpl; [reflexivity|].
  now rewrite H, IH.
Qed.

Lemma sweep_keys_firstn (c : Cache) :
  sweep_keys c = cache_keys (firstn (length c - 100) c).
Proof. unfold sweep_keys, cache_keys. apply firstn_map. Qed.

(** X22.  Deletions are independent: when the sweep gets to delete in a cache
    of more than 100 entries (one entry per key), an entry is still there
    afterwards exactly when it is among the last 100 of the listing or its
    own deletion failed.  A failed deletion costs no other entry its
    deletion. *)
Theorem cleanup_partial_failure (E : Env) (w : World) (e : Entry) :
  caches_open_ok E DYNAMIC_CACHE = true ->
  cache_keys_ok E DYNAMIC_CACHE = true ->
  NoDup (cache_keys (cache_of (caches w) DYNAMIC_CACHE)) ->
  100 < length (cache_of (caches w) DYNAMIC_CACHE) ->
  In e (cache_of (caches (after (cleanupExpiredCache E) w)) DYNAMIC_CACHE) <->
  In e (cache_of (caches w) DYNAMIC_CACHE) /\
  (In e (skipn (length (cache_of (caches w) DYNAMIC_CACHE) - 100)
               (cache_of (caches w) DYNAMIC_CACHE)) \/
   cache_delete_ok E DYNAMIC_CACHE (entry_key e) = false).
Proof.
  intros Hopen Hkeys Hnd Hlen.
  rewrite cleanup_dynamic. unfold sweep_deletes. rewrite Hopen, Hkeys.
  apply Nat.ltb_lt in Hlen. rewrite Hlen. cbn [andb].
  set (c := cache_of (caches w) DYNAMIC_CACHE) in *.
  rewrite fold_delete_In, filter_In, sweep_keys_firstn.
  set (m := length c - 100).
  assert (Hsplit : c = firstn m c ++ skipn m c) by (symmetry; apply firstn_skipn).
  assert (Hapart : forall a, In a (firstn m c) -> In e (skipn m c) ->
                             entry_key a <> entry_key e).
  { intros a Ha He. unfold cache_keys in Hnd. rewrite Hsplit in Hnd.
    apply (NoDup_map_app_neq entry_key _ _ Hnd a e Ha He). }
  split.
  - intros [Hin Hnot]. split; [exact Hin|].
    rewrite Hsplit in Hin. apply in_app_or in Hin. destruct Hin as [Hin | Hin]; [|auto].
    right. destruct (cache_delete_ok E DYNAMIC_CACHE (entry_key e)); [|reflexivity].
    exfalso. apply Hnot. split; [|reflexivity].
    unfold cache_keys. apply in_map, Hin.
  - intros [Hin [Hlast | Hfail]]; (split; [exact Hin|]); intros [Hfirst Hok].
    + unfold cache_keys in Hfirst. apply in_map_iff in Hfirst.
      destruct Hfirst as [a [Hkey Ha]]. apply (Hapart a Ha Hlast Hkey).
    + congruence.
Qed.

Lemma cleanup_partial_failure_witness :
  let E := sticky_env (book_url 0) in
  let oldest := mkEntry (book_url 0) (plain 200 "book") 0 in
  In oldest (cache_of (caches (after (cleanupExpiredCache E) (shelf_world 150))) DYNAMIC_CACHE) <->
  In oldest (cache_of (caches (shelf_world 150)) DYNAMIC_CACHE) /\
  (In oldest (skipn (length (cache_of (caches (shelf_world 150)) DYNAMIC_CACHE) - 100)
                    (cache_of (caches (shelf_world 150)) DYNAMIC_CACHE)) \/
   cache_delete_ok E DYNAMIC_CACHE (entry_key oldest) = false).
Proof.
  apply (cleanup_partial_failure (sticky_env (book_url 0)) (shelf_world 150)
           (mkEntry (book_url 0) (plain 200 "book") 0)).
  - reflexivity.
  - reflexivity.
  - destruct (replay_inv (shelf_history 150)) as [t [Hnd _]];
      [vm_compute; reflexivity | exact Hnd].
  - apply Nat.ltb_lt. vm_compute. reflexivity.
Defined.

Example cleanup_one_deletion_fails :
  cache_keys (cache_of (caches (after (cleanupExpiredCache (sticky_env (book_url 0)))
                                  (shelf_world 150))) DYNAMIC_CACHE)
  = book_url 0 :: map book_url (seq 50 100).
Proof. vm_compute. reflexivity. Qed.

(** X23.  The bound is reached and kept: after one run of the sweep with a
    working storage the dynamic cache (one entry per key) holds its former
    entries up to 100 of them, and a second run changes nothing in any
    cache. *)
Theorem cleanup_reaches_bound (E : Env) (w : World) :
  caches_open_ok E DYNAMIC_CACHE = true ->
  cache_keys_ok E DYNAMIC_CACHE = true ->
  (forall key, cache_delete_ok E DYNAMIC_CACHE key = true) ->
  NoDup (cache_keys (cache_of (caches w) DYNAMIC_CACHE)) ->
  let w1 := after (cleanupExpiredCache E) w in
  length (cache_of (caches w1) DYNAMIC_CACHE)
  = Nat.min (length (cache_of (caches w) DYNAMIC_CACHE)) 100 /\
  (forall name, cache_of (caches (after (cleanupExpiredCache E) w1)) name
                = cache_of (caches w1) name).
Proof.
  intros Hopen Hkeys Hdel Hnd w1.
  assert (Hlen : length (cache_of (caches w1) DYNAMIC_CACHE)
                 = Nat.min (length (cache_of (caches w) DYNAMIC_CACHE)) 100).
  { unfold w1. rewrite cleanup_dynamic. unfold sweep_deletes. rewrite Hopen, Hkeys.
    cbn [andb].
    destruct (Nat.ltb_spec 100 (length (cache_of (caches w) DYNAMIC_CACHE))) as [Hgt | Hle].
    - rewrite (@filter_all _ _ _ Hdel). unfold sweep_keys.
      rewrite (@delete_first_keys _ _ Hnd), length_skipn. lia.
    - lia. }
  split; [exact Hlen|].
  intros name. apply cleanup_small. lia.
Qed.

Lemma cleanup_reaches_bound_witness :
  let w1 := after (cleanupExpiredCache offline_env) (shelf_world 150) in
  length (cache_of (caches w1) DYNAMIC_CACHE)
  = Nat.min (length (cache_of (caches (shelf_world 150)) DYNAMIC_CACHE)) 100 /\
  (forall name, cache_of (caches (after (cleanupExpiredCache offline_env) w1)) name
                = cache_of (caches w1) name).
Proof.
  apply (cleanup_reaches_bound offline_env (shelf_world 150)).
  - reflexivity.
  - reflexivity.
  - intros key. reflexivity.
  - destruct (replay_inv (shelf_history 150)) as [t [Hnd _]];
      [vm_compute; reflexivity | exact Hnd].
Defined.
